(** * bsrp: the client side of SRP-6a

    A shallow embedding of [python/lib/bsrp/client.py]: the three public
    functions [generate_a_pair], [process_challenge] and [verify_session],
    together with the exception type they raise.

    The module imports its helpers from [bsrp.utils].  The opaque ones
    (hash, key derivation, message derivation, group parameters, random
    source) are the fields of the class [Utils]; the two that the
    specification pins down completely ([_pad] and [_to_int]) are defined
    here from its wording.

    Python integers are [Z]; [bytes] are lists of [Byte.byte]; [str] is
    [string].  Exceptions are the [Raise] branch of [result]; every call
    that leaves the function body ([_pad], [_Hash], [pow], ...) is
    recorded, in program order, in the [calls] log of the [world]. *)

From Stdlib Require Import ZArith List String Bool Lia.
From Stdlib.Strings Require Import Byte.
From Stdlib Require Import Zdivisibility.
Import ListNotations.

#[local] Open Scope Z_scope.

(** ** Values *)

Definition bytes := list Byte.byte.

Definition Z_of_byte (b : Byte.byte) : Z := Z.of_N (Byte.to_N b).

Definition byte_of_Z (z : Z) : Byte.byte :=
  match Byte.of_N (Z.to_N (z mod 256)) with
  | Some b => b
  | None => Byte.x00
  end.

(** Exceptions seen by a caller of the client module.  [SafetyException]
    comes from [bsrp.utils], [EvidenceException] is declared in
    [client.py]; [ValueError] is what the builtin [pow] raises and
    [OverflowError] what an integer that does not fit its width raises.
    [Upstream] stands for any failure of an external contract. *)
Inductive exn : Type :=
| SafetyException (msg : string)
| EvidenceException (msg : string)
| ValueError (msg : string)
| OverflowError (msg : string)
| Upstream (what : string).

Inductive result (A : Type) : Type :=
| Ok (v : A)
| Raise (e : exn).

Arguments Ok {A} v.
Arguments Raise {A} e.

Definition is_safety_violation {A : Type} (r : result A) : bool :=
  match r with
  | Raise (SafetyException _) => true
  | _ => false
  end.

Definition is_evidence_mismatch {A : Type} (r : result A) : bool :=
  match r with
  | Raise (EvidenceException _) => true
  | _ => false
  end.

(** An argument of [_Hash]: the helper accepts byte strings and integers
    alike. *)
Inductive hash_arg : Type :=
| HBytes (b : bytes)
| HInt (n : Z).

(** ** Integer helpers *)

(** [int.bit_length()]: the number of bits of the absolute value, 0 for 0. *)
Definition bit_length (n : Z) : Z :=
  if n =? 0 then 0 else Z.succ (Z.log2 (Z.abs n)).

(** Number of bytes of the shortest big-endian encoding. *)
Definition byte_length (n : Z) : Z := (bit_length n + 7) / 8.

(** The [w] low-order bytes of [n], most significant first. *)
Definition to_bytes_width (n : Z) (w : nat) : bytes :=
  map (fun i => byte_of_Z (n / 2 ^ (8 * Z.of_nat i))) (rev (seq 0 w)).

(** The natural (shortest) big-endian encoding of a non-negative integer. *)
Definition to_bytes (n : Z) : bytes :=
  to_bytes_width n (Z.to_nat (byte_length n)).

(** Modelled from the spec: [bsrp.utils._to_int] is not part of the
    sources at hand.  "ToInt(bytes) -> integer (big-endian unsigned)". *)
Definition _to_int (b : bytes) : Z :=
  fold_left (fun acc x => acc * 256 + Z_of_byte x) b 0.

(** Modelled from the spec: [bsrp.utils._pad] is not part of the sources
    at hand.  "Pad(integer, width_bytes) -> byte sequence, big-endian,
    zero-left-padded, truncation is an error if the integer's natural
    encoding exceeds width_bytes".  The function pads "a non-negative
    integer's" encoding; a negative one has no unsigned encoding and is
    an error as well.  The unit of the width is the contract's; the
    statements about [process_challenge] below speak of the arguments
    handed to [_pad] and of whatever bytes it returns, not of their
    number. *)
Definition pad_spec (value width : Z) : result bytes :=
  if value <? 0 then
    Raise (OverflowError "can't convert negative int to unsigned")
  else if width <? byte_length value then
    Raise (OverflowError "int too big to convert")
  else Ok (to_bytes_width value (Z.to_nat width)).

(** ** The builtin three-argument [pow] *)

(** The loop of the modular inverse used for a negative exponent:
    extended Euclid on [(a, n)], carrying the coefficients [(b, c)]. *)
Fixpoint invmod_loop (fuel : nat) (a n b c : Z) : option (Z * Z) :=
  match fuel with
  | O => None
  | S fuel' =>
      if n =? 0 then Some (a, b)
      else invmod_loop fuel' n (a mod n) c (b - (a / n) * c)
  end.

Definition invmod (a n : Z) : option Z :=
  match invmod_loop (S (S (Z.to_nat n))) a n 1 0 with
  | Some (1, b) => Some b
  | _ => None
  end.

(** [pow(base, exp, modulus)] on integers (Python 3.8 and later): a zero
    modulus is a [ValueError]; a modulus of absolute value 1 gives 0; a
    negative exponent replaces the base by its inverse modulo [|modulus|]
    (a [ValueError] when there is none); the result has the sign of the
    modulus, like [%]. *)
Definition py_pow (base exp modulus : Z) : result Z :=
  if modulus =? 0 then Raise (ValueError "pow() 3rd argument cannot be 0")
  else if Z.abs modulus =? 1 then Ok 0
  else if exp <? 0 then
    match invmod base (Z.abs modulus) with
    | Some inv => Ok ((inv ^ (- exp)) mod modulus)
    | None => Raise (ValueError "base is not invertible for the given modulus")
    end
  else Ok ((base ^ exp) mod modulus).

(** ** Calls that leave the function body *)

Inductive event : Type :=
| EvRandom (n : Z)
| EvPad (value width : Z)
| EvHash (args : list hash_arg)
| EvCalcX (salt : bytes) (identity password : string)
| EvPow (base exp modulus : Z)
| EvCalcM (generator prime : Z) (identity : string) (salt : bytes)
          (A B : Z) (session_key : bytes).

Definition is_pow (e : event) : bool :=
  match e with EvPow _ _ _ => true | _ => false end.

Definition is_hash (e : event) : bool :=
  match e with EvHash _ => true | _ => false end.

Definition is_pad (e : event) : bool :=
  match e with EvPad _ _ => true | _ => false end.

(** ** The helpers imported from [bsrp.utils] *)

Class Utils : Type := {
  (** state of the Random Source *)
  rng : Type;
  _get_srp_prime : Z;
  _get_srp_generator : Z;
  random_source : Z -> rng -> result bytes * rng;
  hash_fn : list hash_arg -> result bytes;
  derive_x : bytes -> string -> string -> result Z;
  derive_M : Z -> Z -> string -> bytes -> Z -> Z -> bytes -> result bytes
}.

Section Client.

Context {U : Utils}.

Record world : Type := World {
  entropy : rng;
  calls : list event
}.

(** Computations that may raise, draw from the Random Source, and log
    their calls. *)
Definition Py (A : Type) : Type := world -> result A * world.

Definition ret {A : Type} (v : A) : Py A := fun w => (Ok v, w).

Definition raise {A : Type} (e : exn) : Py A := fun w => (Raise e, w).

Definition bind {A B : Type} (m : Py A) (k : A -> Py B) : Py B :=
  fun w =>
    match m w with
    | (Ok v, w') => k v w'
    | (Raise e, w') => (Raise e, w')
    end.

(** A call to a pure helper: log it, then return or raise as it does. *)
Definition call {A : Type} (ev : event) (r : result A) : Py A :=
  fun w => (r, World (entropy w) (calls w ++ [ev])).

End Client.

Notation "x <- m ;; k" := (bind m (fun x => k))
  (at level 61, m at next level, right associativity).

Section ClientFunctions.

Context {U : Utils}.

Definition _generate_random_bytes (n : Z) : Py bytes :=
  fun w =>
    let (r, e') := random_source n (entropy w) in
    (r, World e' (calls w ++ [EvRandom n])).

Definition _pad (value width : Z) : Py bytes :=
  call (EvPad value width) (pad_spec value width).

Definition _Hash (args : list hash_arg) : Py bytes :=
  call (EvHash args) (hash_fn args).

Definition _calculate_x (salt : bytes) (identity password : string) : Py Z :=
  call (EvCalcX salt identity password) (derive_x salt identity password).

Definition _calculate_M (generator prime : Z) (identity : string)
    (salt : bytes) (A B : Z) (session_key : bytes) : Py bytes :=
  call (EvCalcM generator prime identity salt A B session_key)
       (derive_M generator prime identity salt A B session_key).

Definition pow (base exp modulus : Z) : Py Z :=
  call (EvPow base exp modulus) (py_pow base exp modulus).

(** ** [client.py] *)

Definition generate_a_pair : Py (Z * Z) :=
  let prime := _get_srp_prime in
  let generator := _get_srp_generator in
  rnd <- _generate_random_bytes 32 ;;
  let a := _to_int rnd in
  A <- pow generator a prime ;;
  ret (a, A).

Definition process_challenge (identity password : string) (salt : bytes)
    (a A B : Z) : Py (bytes * bytes) :=
  let prime := _get_srp_prime in
  let width := bit_length prime in
  let generator := _get_srp_generator in
  padded_generator <- _pad generator width ;;
  padded_A <- _pad A width ;;
  padded_B <- _pad B width ;;
  hu <- _Hash [HBytes padded_A; HBytes padded_B] ;;
  let u := _to_int hu in
  x <- _calculate_x salt identity password ;;
  hk <- _Hash [HInt prime; HBytes padded_generator] ;;
  let k := _to_int hk in
  if B =? 0 then
    raise (SafetyException "Public value B is 0. Auth Failed.")
  else if u =? 0 then
    raise (SafetyException "Scrambler u is 0. Auth Failed.")
  else
    gx <- pow generator x prime ;;
    let t1 := B - k * gx in
    let t2 := a + u * x in
    S <- pow t1 t2 prime ;;
    session_key <- _Hash [HInt S] ;;
    M <- _calculate_M generator prime identity salt A B session_key ;;
    ret (M, session_key).

Definition bytes_eq_dec : forall x y : bytes, {x = y} + {x <> y} :=
  list_eq_dec Byte.byte_eq_dec.

(** [!=] on two [bytes] objects. *)
Definition bytes_ne (x y : bytes) : bool :=
  if bytes_eq_dec x y then false else true.

Definition verify_session (A : Z) (M : bytes) (session_key : bytes)
    (server_H_AMK : bytes) : Py bytes :=
  client_H_AMK <- _Hash [HInt A; HBytes M; HBytes session_key] ;;
  if bytes_ne client_H_AMK server_H_AMK then
    raise (EvidenceException "Evidence keys do not match. Auth Failed.")
  else ret client_H_AMK.

End ClientFunctions.

(** ** Vocabulary of the statements *)

Section Vocabulary.

Context {U : Utils}.

(** The calls a computation makes when started in [w]. *)
Definition performed {A : Type} (m : Py A) (w : world) : list event :=
  skipn (List.length (calls w)) (calls (snd (m w))).

(** [runs m r l]: from any world, [m] ends in [r] after making exactly the
    calls [l], without touching the entropy. *)
Definition runs {A : Type} (m : Py A) (r : result A) (l : list event)
  : Prop :=
  forall w, m w = (r, World (entropy w) (calls w ++ l)).

(** [m] is such a computation, whatever its outcome. *)
Definition steady {A : Type} (m : Py A) : Prop :=
  exists r l, runs m r l.

(** The helpers called before the safety checks all return: the three
    paddings, the two hashes and the key derivation. *)
Record helpers_answer (identity password : string) (salt : bytes)
    (A B : Z) (pg pA pB hu : bytes) (x : Z) (hk : bytes) : Prop := {
  ans_pad_g : pad_spec _get_srp_generator (bit_length _get_srp_prime) = Ok pg;
  ans_pad_A : pad_spec A (bit_length _get_srp_prime) = Ok pA;
  ans_pad_B : pad_spec B (bit_length _get_srp_prime) = Ok pB;
  ans_hash_u : hash_fn [HBytes pA; HBytes pB] = Ok hu;
  ans_x : derive_x salt identity password = Ok x;
  ans_hash_k : hash_fn [HInt _get_srp_prime; HBytes pg] = Ok hk
}.

(** The calls made up to the safety checks. *)
Definition checked_prefix (identity password : string) (salt : bytes)
    (A B : Z) (pg pA pB : bytes) : list event :=
  [ EvPad _get_srp_generator (bit_length _get_srp_prime);
    EvPad A (bit_length _get_srp_prime);
    EvPad B (bit_length _get_srp_prime);
    EvHash [HBytes pA; HBytes pB];
    EvCalcX salt identity password;
    EvHash [HInt _get_srp_prime; HBytes pg] ].

(** [m] runs as in [steady] and makes no call of [_pad]. *)
Definition pads_nothing {A : Type} (m : Py A) : Prop :=
  exists r l, runs m r l /\ filter is_pad l = [].

End Vocabulary.

(** ** A toy deployment

    The small test group and stub helpers of the end-to-end scenario: the
    hash is the sum of the byte values of its serialized arguments,
    reduced modulo the group prime and written on 4 bytes.  Integers are
    serialized in their natural encoding.  The random source counts
    upwards from its seed and is exhausted on a negative seed. *)

Definition arg_bytes (x : hash_arg) : bytes :=
  match x with
  | HBytes b => b
  | HInt n => to_bytes n
  end.

Definition byte_sum (b : bytes) : Z :=
  fold_left (fun acc x => acc + Z_of_byte x) b 0.

Definition toy_hash (N : Z) (args : list hash_arg) : bytes :=
  to_bytes_width (byte_sum (List.concat (map arg_bytes args)) mod N) 4.

Definition toy_random (n : Z) (seed : Z) : result bytes * Z :=
  if seed <? 0 then (Raise (Upstream "entropy exhausted"), seed)
  else (Ok (to_bytes_width seed (Z.to_nat n)), seed + 1).

Definition toy_utils (N g : Z) : Utils := {|
  rng := Z;
  _get_srp_prime := N;
  _get_srp_generator := g;
  random_source := toy_random;
  hash_fn := fun args => Ok (toy_hash N args);
  derive_x := fun salt identity password =>
    Ok (_to_int (toy_hash N [HBytes salt;
                             HBytes (list_byte_of_string identity);
                             HBytes (list_byte_of_string password)]));
  derive_M := fun g' N' identity salt A B session_key =>
    Ok (toy_hash N [HInt g'; HInt N'; HBytes (list_byte_of_string identity);
                    HBytes salt; HInt A; HInt B; HBytes session_key])
|}.

Definition toy_world (N g seed : Z) : @world (toy_utils N g) :=
  @World (toy_utils N g) seed [].

Definition toy_salt : bytes := [Byte.x0b; Byte.xad].

Definition toy_bytes (l : list Z) : bytes := map byte_of_Z l.

(** The toy deployment with its key derivation out of order. *)
Definition toy_utils_no_kdf (N g : Z) : Utils := {|
  rng := Z;
  _get_srp_prime := N;
  _get_srp_generator := g;
  random_source := toy_random;
  hash_fn := fun args => Ok (toy_hash N args);
  derive_x := fun _ _ _ => Raise (Upstream "key derivation unavailable");
  derive_M := fun g' N' identity salt A B session_key =>
    Ok (toy_hash N [HInt g'; HInt N'; HBytes (list_byte_of_string identity);
                    HBytes salt; HInt A; HInt B; HBytes session_key])
|}.

(** * Properties *)

(** ** Integers and bytes *)

Lemma Z_of_byte_range (b : Byte.byte) : 0 <= Z_of_byte b < 256.
Proof.
  unfold Z_of_byte. pose proof (Byte.to_N_bounded b) as Hb.
  split; [apply N2Z.is_nonneg | lia].
Qed.

Lemma to_int_acc_nonneg (b : bytes) :
  forall acc, 0 <= acc ->
  0 <= fold_left (fun acc x => acc * 256 + Z_of_byte x) b acc.
Proof.
  induction b as [|x b IH]; intros acc Hacc; simpl.
  - exact Hacc.
  - apply IH. pose proof (Z_of_byte_range x). lia.
Qed.

Lemma to_int_nonneg (b : bytes) : 0 <= _to_int b.
Proof. unfold _to_int. apply to_int_acc_nonneg. lia. Qed.

Lemma to_bytes_width_length (n : Z) (w : nat) :
  List.length (to_bytes_width n w) = w.
Proof.
  unfold to_bytes_width.
  now rewrite length_map, length_rev, length_seq.
Qed.

Lemma bit_length_pos (n : Z) : 0 < n -> bit_length n = Z.succ (Z.log2 n).
Proof.
  intros Hn. unfold bit_length.
  destruct (Z.eqb_spec n 0); [lia|].
  now rewrite Z.abs_eq by lia.
Qed.

(** From two bits on, the bit count exceeds the byte count. *)
Lemma byte_length_lt_bit_length (n : Z) :
  2 <= n -> 0 < byte_length n < bit_length n.
Proof.
  intros Hn. unfold byte_length.
  rewrite bit_length_pos by lia.
  assert (1 <= Z.log2 n) by (apply Z.log2_le_pow2; simpl; lia).
  split.
  - apply Z.div_str_pos. lia.
  - apply Z.div_lt_upper_bound; lia.
Qed.

(** ** The builtin [pow] *)

Lemma invmod_loop_fuel (fuel : nat) :
  forall a n b c, 0 <= n -> (Z.to_nat n < fuel)%nat ->
  invmod_loop fuel a n b c <> None.
Proof.
  induction fuel as [|fuel IH]; intros a n b c Hn Hfuel; [lia|].
  simpl. destruct (Z.eqb_spec n 0) as [->|Hnz]; [discriminate|].
  pose proof (Z.mod_pos_bound a n ltac:(lia)).
  apply IH; lia.
Qed.

(** The fuel given by [invmod] is never exhausted. *)
Lemma invmod_loop_terminates (a n : Z) :
  0 <= n -> invmod_loop (S (S (Z.to_nat n))) a n 1 0 <> None.
Proof. intros Hn. apply invmod_loop_fuel; lia. Qed.

Lemma py_pow_nonneg_exp (base exp modulus : Z) :
  modulus <> 0 -> 0 <= exp ->
  py_pow base exp modulus = Ok ((base ^ exp) mod modulus).
Proof.
  intros Hm He. unfold py_pow.
  destruct (Z.eqb_spec modulus 0); [contradiction|].
  destruct (Z.eqb_spec (Z.abs modulus) 1) as [H1|H1].
  - f_equal. destruct (Z.abs_spec modulus) as [[_ Ha]|[_ Ha]].
    + replace modulus with 1 by lia. now rewrite Z.mod_1_r.
    + replace modulus with (-1) by lia.
      pose proof (Z.mod_neg_bound (base ^ exp) (-1) ltac:(lia)). lia.
  - destruct (Z.ltb_spec exp 0); [lia|reflexivity].
Qed.

Lemma py_pow_range (base exp modulus r : Z) :
  0 < modulus -> 0 <= exp ->
  py_pow base exp modulus = Ok r -> 0 <= r < modulus.
Proof.
  intros Hm He. rewrite py_pow_nonneg_exp by lia.
  intros [= <-]. apply Z.mod_pos_bound. exact Hm.
Qed.

Lemma py_pow_not_safety (base exp modulus : Z) :
  is_safety_violation (py_pow base exp modulus) = false.
Proof.
  unfold py_pow.
  destruct (modulus =? 0); [reflexivity|].
  destruct (Z.abs modulus =? 1); [reflexivity|].
  destruct (exp <? 0); [|reflexivity].
  destruct (invmod base (Z.abs modulus)); reflexivity.
Qed.

(** A prime that does not divide [g] divides no power of [g]. *)
Lemma prime_not_divide_pow (p g : Z) :
  Z.prime p -> ~ (p | g) -> forall e, 0 <= e -> ~ (p | g ^ e).
Proof.
  intros Hp Hg e He. pattern e. apply natlike_ind; [| |exact He].
  - simpl. intros Hd. apply Z.divide_1_r_nonneg in Hd.
    + pose proof (Z.prime_ge_2 p Hp). lia.
    + pose proof (Z.prime_ge_2 p Hp). lia.
  - intros x Hx IH Hd. rewrite Z.pow_succ_r in Hd by exact Hx.
    apply (Z.divide_prime_mul g (g ^ x) p Hp) in Hd. tauto.
Qed.

(** ** Computations that leave the Random Source alone

    [runs m r l]: from any world, [m] ends in [r] after making exactly the
    calls [l], without touching the entropy. *)

Section Runs.

Context {U : Utils}.


Lemma runs_ret {A : Type} (v : A) : runs (ret v) (Ok v) [].
Proof. intros [e c]. unfold ret. simpl. now rewrite app_nil_r. Qed.

Lemma runs_raise {A : Type} (e : exn) : runs (@raise U A e) (Raise e) [].
Proof. intros [en c]. unfold raise. simpl. now rewrite app_nil_r. Qed.

Lemma runs_call {A : Type} (ev : event) (r : result A) :
  runs (call ev r) r [ev].
Proof. intros w. reflexivity. Qed.

Lemma runs_bind_ok {A B : Type} (m : Py A) (k : A -> Py B)
    (v : A) (r : result B) (l1 l2 : list event) :
  runs m (Ok v) l1 -> runs (k v) r l2 -> runs (bind m k) r (l1 ++ l2).
Proof.
  intros Hm Hk w. unfold bind. rewrite Hm, Hk. simpl.
  now rewrite app_assoc.
Qed.

Lemma runs_bind_raise {A B : Type} (m : Py A) (k : A -> Py B)
    (e : exn) (l : list event) :
  runs m (Raise e) l -> runs (bind m k) (Raise e) l.
Proof. intros Hm w. unfold bind. now rewrite Hm. Qed.

Lemma runs_fst {A : Type} (m : Py A) r l w : runs m r l -> fst (m w) = r.
Proof. intros H. now rewrite H. Qed.

Lemma runs_entropy {A : Type} (m : Py A) r l w :
  runs m r l -> entropy (snd (m w)) = entropy w.
Proof. intros H. now rewrite H. Qed.

Lemma runs_performed {A : Type} (m : Py A) r l w :
  runs m r l -> performed m w = l.
Proof.
  intros H. unfold performed. rewrite H. simpl.
  rewrite skipn_app, skipn_all, Nat.sub_diag. reflexivity.
Qed.


Lemma steady_ret {A : Type} (v : A) : steady (ret v).
Proof. eexists _, _. apply runs_ret. Qed.

Lemma steady_raise {A : Type} (e : exn) : steady (@raise U A e).
Proof. eexists _, _. apply runs_raise. Qed.

Lemma steady_call {A : Type} (ev : event) (r : result A) :
  steady (call ev r).
Proof. eexists _, _. apply runs_call. Qed.

Lemma steady_bind {A B : Type} (m : Py A) (k : A -> Py B) :
  steady m -> (forall v, steady (k v)) -> steady (bind m k).
Proof.
  intros (r & l & Hm) Hk. destruct r as [v|e].
  - destruct (Hk v) as (r' & l' & Hk'). eexists _, _.
    eapply runs_bind_ok; eassumption.
  - eexists _, _. eapply runs_bind_raise; eassumption.
Qed.

Lemma steady_process_challenge identity password salt a A B :
  steady (process_challenge identity password salt a A B).
Proof.
  unfold process_challenge, _pad, _Hash, _calculate_x, _calculate_M, pow.
  repeat (apply steady_bind; [apply steady_call|intros ?]).
  destruct (B =? 0); [apply steady_raise|].
  destruct (_ =? 0); [apply steady_raise|].
  repeat (apply steady_bind; [apply steady_call|intros ?]).
  apply steady_ret.
Qed.

End Runs.

(** ** The paths of [process_challenge] *)

Section Challenge.

Context {U : Utils}.

Lemma runs_call_bind {A B : Type} (ev : event) (ra : result A)
    (k : A -> Py B) (v : A) (r : result B) (l : list event) :
  ra = Ok v -> runs (k v) r l -> runs (bind (call ev ra) k) r (ev :: l).
Proof.
  intros -> Hk. change (ev :: l) with ([ev] ++ l).
  eapply runs_bind_ok; [apply runs_call|exact Hk].
Qed.

Lemma runs_call_bind_raise {A B : Type} (ev : event) (ra : result A)
    (k : A -> Py B) (e : exn) :
  ra = Raise e -> runs (bind (call ev ra) k) (Raise e) [ev].
Proof. intros ->. apply runs_bind_raise, runs_call. Qed.


Variables (identity password : string) (salt : bytes) (a A B : Z).
Variables (pg pA pB hu : bytes) (x : Z) (hk : bytes).
Hypothesis Hans : helpers_answer identity password salt A B pg pA pB hu x hk.

Ltac to_checks :=
  unfold process_challenge, _pad, _Hash, _calculate_x;
  destruct Hans;
  do 6 (eapply runs_call_bind; [eassumption|]).

Lemma challenge_B_zero :
  B = 0 ->
  runs (process_challenge identity password salt a A B)
       (Raise (SafetyException "Public value B is 0. Auth Failed."))
       (checked_prefix identity password salt A B pg pA pB).
Proof.
  intros HB. unfold checked_prefix. to_checks.
  subst B. simpl. apply runs_raise.
Qed.

Lemma challenge_u_zero :
  B <> 0 -> _to_int hu = 0 ->
  runs (process_challenge identity password salt a A B)
       (Raise (SafetyException "Scrambler u is 0. Auth Failed."))
       (checked_prefix identity password salt A B pg pA pB).
Proof.
  intros HB Hu. unfold checked_prefix. to_checks.
  destruct (Z.eqb_spec B 0); [contradiction|].
  rewrite Hu. simpl. apply runs_raise.
Qed.

(** Past the checks, everything the function does. *)
Lemma challenge_passes (gx S : Z) (K Mv : bytes) :
  B <> 0 -> _to_int hu <> 0 ->
  py_pow _get_srp_generator x _get_srp_prime = Ok gx ->
  py_pow (B - _to_int hk * gx) (a + _to_int hu * x) _get_srp_prime = Ok S ->
  hash_fn [HInt S] = Ok K ->
  derive_M _get_srp_generator _get_srp_prime identity salt A B K = Ok Mv ->
  runs (process_challenge identity password salt a A B)
       (Ok (Mv, K))
       (checked_prefix identity password salt A B pg pA pB ++
        [ EvPow _get_srp_generator x _get_srp_prime;
          EvPow (B - _to_int hk * gx) (a + _to_int hu * x) _get_srp_prime;
          EvHash [HInt S];
          EvCalcM _get_srp_generator _get_srp_prime identity salt A B K ]).
Proof.
  intros HB Hu Hgx HS HK HM. unfold checked_prefix. simpl app. to_checks.
  destruct (Z.eqb_spec B 0); [contradiction|].
  destruct (Z.eqb_spec (_to_int hu) 0); [contradiction|].
  unfold pow, _Hash, _calculate_M.
  do 4 (eapply runs_call_bind; [eassumption|]).
  apply runs_ret.
Qed.

(** Past the checks no safety violation is raised, unless a helper
    raises one itself. *)
Lemma challenge_tail_not_safety :
  B <> 0 -> _to_int hu <> 0 ->
  (forall args, is_safety_violation (hash_fn args) = false) ->
  (forall g N i s A' B' K,
      is_safety_violation (derive_M g N i s A' B' K) = false) ->
  forall w,
    is_safety_violation
      (fst (process_challenge identity password salt a A B w)) = false.
Proof.
  intros HB Hu HH HM w.
  destruct Hans as [Hg HA HB' Hhu Hx Hhk].
  unfold process_challenge, _pad, _Hash, _calculate_x, _calculate_M, pow,
    bind, call, ret, raise.
  cbn [entropy calls]. rewrite Hg, HA, HB', Hhu, Hx, Hhk.
  destruct (Z.eqb_spec B 0); [contradiction|].
  destruct (Z.eqb_spec (_to_int hu) 0); [contradiction|].
  pose proof (py_pow_not_safety _get_srp_generator x _get_srp_prime) as P1.
  destruct (py_pow _get_srp_generator x _get_srp_prime) as [gx|e1];
    [|exact P1].
  pose proof (py_pow_not_safety (B - _to_int hk * gx) (a + _to_int hu * x)
                _get_srp_prime) as P2.
  destruct (py_pow (B - _to_int hk * gx) (a + _to_int hu * x) _get_srp_prime)
    as [S|e2]; [|exact P2].
  specialize (HH [HInt S]).
  destruct (hash_fn [HInt S]) as [K|e]; [|exact HH].
  specialize (HM _get_srp_generator _get_srp_prime identity salt A B K).
  destruct (derive_M _ _ _ _ _ _ _) as [Mv|e]; [reflexivity|exact HM].
Qed.

End Challenge.

Section ChallengeCalls.

Context {U : Utils}.
Variables (identity password : string) (salt : bytes) (a A B : Z).
Variables (pg pA pB hu : bytes) (x : Z) (hk : bytes).
Hypothesis Hans : helpers_answer identity password salt A B pg pA pB hu x hk.

(** Whatever happens after the checks, the calls begin with the checked
    prefix and no further padding follows. *)
Lemma challenge_calls :
  exists r l,
    runs (process_challenge identity password salt a A B) r
         (checked_prefix identity password salt A B pg pA pB ++ l)
    /\ filter is_pad l = [].
Proof.
  destruct (Z.eq_dec B 0) as [HB|HB].
  { exists (Raise (SafetyException "Public value B is 0. Auth Failed.")), [].
    split; [|reflexivity]. rewrite app_nil_r.
    now apply challenge_B_zero with (hu := hu) (x := x) (hk := hk). }
  destruct (Z.eq_dec (_to_int hu) 0) as [Hu|Hu].
  { exists (Raise (SafetyException "Scrambler u is 0. Auth Failed.")), [].
    split; [|reflexivity]. rewrite app_nil_r.
    now apply challenge_u_zero with (hu := hu) (x := x) (hk := hk). }
  assert (Hgoal : forall r l,
    runs (gx <- pow _get_srp_generator x _get_srp_prime ;;
          S <- pow (B - _to_int hk * gx) (a + _to_int hu * x)
                   _get_srp_prime ;;
          session_key <- _Hash [HInt S] ;;
          M <- _calculate_M _get_srp_generator _get_srp_prime identity salt
                            A B session_key ;;
          ret (M, session_key)) r l ->
    runs (process_challenge identity password salt a A B) r
         (checked_prefix identity password salt A B pg pA pB ++ l)).
  { intros r l Hr. unfold checked_prefix. simpl app.
    unfold process_challenge, _pad, _Hash, _calculate_x.
    destruct Hans.
    do 6 (eapply runs_call_bind; [eassumption|]).
    destruct (Z.eqb_spec B 0); [contradiction|].
    destruct (Z.eqb_spec (_to_int hu) 0); [contradiction|].
    exact Hr. }
  unfold pow, _Hash, _calculate_M in Hgoal.
  destruct (py_pow _get_srp_generator x _get_srp_prime) as [gx|e] eqn:E1.
  2: { eexists _, _. split;
       [apply Hgoal; eapply runs_call_bind_raise; first [eassumption|reflexivity]|reflexivity]. }
  destruct (py_pow (B - _to_int hk * gx) (a + _to_int hu * x) _get_srp_prime)
    as [S|e] eqn:E2.
  2: { eexists _, _. split;
       [apply Hgoal; eapply runs_call_bind; [first [eassumption|reflexivity]|];
        eapply runs_call_bind_raise; first [eassumption|reflexivity]|reflexivity]. }
  destruct (hash_fn [HInt S]) as [K|e] eqn:E3.
  2: { eexists _, _. split;
       [apply Hgoal; do 2 (eapply runs_call_bind; [first [eassumption|reflexivity]|]);
        eapply runs_call_bind_raise; first [eassumption|reflexivity]|reflexivity]. }
  destruct (derive_M _get_srp_generator _get_srp_prime identity salt A B K)
    as [Mv|e] eqn:E4.
  - eexists _, _. split;
      [apply Hgoal; do 4 (eapply runs_call_bind; [first [eassumption|reflexivity]|]);
       apply runs_ret|reflexivity].
  - eexists _, _. split;
      [apply Hgoal; do 3 (eapply runs_call_bind; [first [eassumption|reflexivity]|]);
       eapply runs_call_bind_raise; first [eassumption|reflexivity]|reflexivity].
Qed.

End ChallengeCalls.

(** ** The toy group *)

Lemma prime_23 : Z.prime 23.
Proof.
  split; [lia|]. intros n Hn [z Hz].
  assert (Hcases : n = 2 \/ n = 3 \/ n = 4 \/ n = 5 \/ n = 6 \/ n = 7 \/
                   n = 8 \/ n = 9 \/ n = 10 \/ n = 11 \/ n = 12 \/ n = 13 \/
                   n = 14 \/ n = 15 \/ n = 16 \/ n = 17 \/ n = 18 \/ n = 19 \/
                   n = 20 \/ n = 21 \/ n = 22) by lia.
  repeat (destruct Hcases as [->|Hcases]; [lia|]). subst n. lia.
Qed.

Lemma toy_not_multiple : ~ (23 | 5).
Proof. intros [z Hz]. lia. Qed.


Lemma toy_pad (v : Z) :
  0 <= v < 256 -> pad_spec v 5 = Ok (to_bytes_width v 5).
Proof.
  intros Hv. unfold pad_spec.
  destruct (Z.ltb_spec v 0); [lia|].
  destruct (Z.ltb_spec 5 (byte_length v)) as [Hlt|]; [|reflexivity].
  exfalso. unfold byte_length, bit_length in Hlt.
  destruct (Z.eqb_spec v 0); [vm_compute in Hlt; discriminate|].
  rewrite Z.abs_eq in Hlt by lia.
  assert (Z.log2 v < 8) by (apply Z.log2_lt_pow2; simpl; lia).
  assert ((Z.succ (Z.log2 v) + 7) / 8 < 2)
    by (apply Z.div_lt_upper_bound; lia).
  lia.
Qed.

(** The answers of the toy helpers for identity "alice", password "pw"
    and salt [toy_salt] in the group [(23, 5)]: [x = 5], [k = 5] and
    [u = (A + B) mod 23]. *)
Lemma toy_answers (A B : Z) :
  0 <= A < 256 -> 0 <= B < 256 ->
  helpers_answer (U := toy_utils 23 5) "alice" "pw" toy_salt A B
    (toy_bytes [0; 0; 0; 0; 5]) (to_bytes_width A 5) (to_bytes_width B 5)
    (toy_hash 23 [HBytes (to_bytes_width A 5); HBytes (to_bytes_width B 5)])
    5 (toy_bytes [0; 0; 0; 5]).
Proof.
  intros HA HB. constructor; try reflexivity.
  - now apply toy_pad.
  - now apply toy_pad.
Qed.

(** * The claims *)

(** ** Safety check on the server's public value *)

(** C1.  The claim asks for a safety violation whenever [B] is congruent
    to 0 modulo [N].  The function compares [B] with 0 only: for a
    non-zero multiple of [N] (and a non-zero [u]) no safety violation is
    raised, although such a [B] fails the SRP-6a check the function
    announces. *)
Theorem process_challenge_nonzero_multiple_of_N_not_rejected
    {U : Utils} (identity password : string) (salt : bytes) (a A B : Z)
    (pg pA pB hu : bytes) (x : Z) (hk : bytes) (w : world) :
  helpers_answer identity password salt A B pg pA pB hu x hk ->
  (forall args, is_safety_violation (hash_fn args) = false) ->
  (forall g N i s A' B' K,
      is_safety_violation (derive_M g N i s A' B' K) = false) ->
  B mod _get_srp_prime = 0 -> B <> 0 -> _to_int hu <> 0 ->
  is_safety_violation
    (fst (process_challenge identity password salt a A B w)) = false.
Proof.
  intros Hans HH HM _ HB Hu.
  now apply challenge_tail_not_safety
    with (pg := pg) (pA := pA) (pB := pB) (hu := hu) (x := x) (hk := hk).
Qed.

(** At [B = N = 23] the toy client returns a message and a session key. *)
Lemma process_challenge_nonzero_multiple_of_N_not_rejected_witness :
  23 mod @_get_srp_prime (toy_utils 23 5) = 0 /\
  fst (process_challenge (U := toy_utils 23 5) "alice" "pw" toy_salt 6 8 23
         (toy_world 23 5 6))
  = Ok (toy_bytes [0; 0; 0; 12], toy_bytes [0; 0; 0; 18]) /\
  is_safety_violation
    (fst (process_challenge (U := toy_utils 23 5) "alice" "pw" toy_salt 6 8 23
            (toy_world 23 5 6))) = false.
Proof.
  split; [reflexivity|]. split; [reflexivity|].
  apply (process_challenge_nonzero_multiple_of_N_not_rejected
           (U := toy_utils 23 5) "alice" "pw" toy_salt 6 8 23
           _ _ _ _ _ _ (toy_world 23 5 6) (toy_answers 8 23 ltac:(lia) ltac:(lia))).
  - intros args. reflexivity.
  - intros g N i s A' B' K. reflexivity.
  - reflexivity.
  - lia.
  - vm_compute. discriminate.
Defined.

(** ** Padding width *)

Section PadCalls.

Context {U : Utils}.

Lemma pads_nothing_ret {A : Type} (v : A) : pads_nothing (ret v).
Proof. exists (Ok v), []. split; [apply runs_ret|reflexivity]. Qed.

Lemma pads_nothing_raise {A : Type} (e : exn) : pads_nothing (@raise U A e).
Proof. exists (Raise e), []. split; [apply runs_raise|reflexivity]. Qed.

Lemma pads_nothing_call {A : Type} (ev : event) (r : result A) :
  is_pad ev = false -> pads_nothing (call ev r).
Proof.
  intros Hev. exists r, [ev]. split; [apply runs_call|].
  simpl. now rewrite Hev.
Qed.

Lemma pads_nothing_bind {A B : Type} (m : Py A) (k : A -> Py B) :
  pads_nothing m -> (forall v, pads_nothing (k v)) -> pads_nothing (bind m k).
Proof.
  intros (r & l & Hm & Hl) Hk. destruct r as [v|e].
  - destruct (Hk v) as (r' & l' & Hk' & Hl'). exists r', (l ++ l').
    split; [eapply runs_bind_ok; eassumption|].
    now rewrite filter_app, Hl, Hl'.
  - exists (Raise e), l. split; [now apply runs_bind_raise|exact Hl].
Qed.

(** The calls of [_pad] on every path: those for [g], [A] and [B], in this
    order, up to the first one that fails; all three on a run that
    returns. *)
Lemma challenge_pad_calls (identity password : string) (salt : bytes)
    (a A B : Z) :
  exists r l,
    runs (process_challenge identity password salt a A B) r l
    /\ (exists n, (1 <= n <= 3)%nat
         /\ filter is_pad l
            = firstn n [ EvPad _get_srp_generator (bit_length _get_srp_prime);
                         EvPad A (bit_length _get_srp_prime);
                         EvPad B (bit_length _get_srp_prime) ])
    /\ (forall v, r = Ok v ->
        filter is_pad l
        = [ EvPad _get_srp_generator (bit_length _get_srp_prime);
            EvPad A (bit_length _get_srp_prime);
            EvPad B (bit_length _get_srp_prime) ]).
Proof.
  unfold process_challenge, _pad.
  destruct (pad_spec _get_srp_generator (bit_length _get_srp_prime))
    as [pg|e] eqn:Eg.
  2: { exists (Raise e), [EvPad _get_srp_generator (bit_length _get_srp_prime)].
       split; [now apply runs_call_bind_raise|].
       split; [exists 1%nat; split; [lia|reflexivity]|discriminate]. }
  destruct (pad_spec A (bit_length _get_srp_prime)) as [pA|e] eqn:EA.
  2: { exists (Raise e), [EvPad _get_srp_generator (bit_length _get_srp_prime);
                          EvPad A (bit_length _get_srp_prime)].
       split; [eapply runs_call_bind; [reflexivity|];
               now apply runs_call_bind_raise|].
       split; [exists 2%nat; split; [lia|reflexivity]|discriminate]. }
  destruct (pad_spec B (bit_length _get_srp_prime)) as [pB|e] eqn:EB.
  2: { exists (Raise e), [EvPad _get_srp_generator (bit_length _get_srp_prime);
                          EvPad A (bit_length _get_srp_prime);
                          EvPad B (bit_length _get_srp_prime)].
       split; [do 2 (eapply runs_call_bind; [reflexivity|]);
               now apply runs_call_bind_raise|].
       split; [exists 3%nat; split; [lia|reflexivity]|discriminate]. }
  assert (Hrest : pads_nothing
    (hu <- _Hash [HBytes pA; HBytes pB] ;;
     x <- _calculate_x salt identity password ;;
     hk <- _Hash [HInt _get_srp_prime; HBytes pg] ;;
     if B =? 0 then
       raise (SafetyException "Public value B is 0. Auth Failed.")
     else if _to_int hu =? 0 then
       raise (SafetyException "Scrambler u is 0. Auth Failed.")
     else
       gx <- pow _get_srp_generator x _get_srp_prime ;;
       S <- pow (B - _to_int hk * gx) (a + _to_int hu * x) _get_srp_prime ;;
       session_key <- _Hash [HInt S] ;;
       M <- _calculate_M _get_srp_generator _get_srp_prime identity salt
                         A B session_key ;;
       ret (M, session_key))).
  { unfold _Hash, _calculate_x, _calculate_M, pow.
    repeat (apply pads_nothing_bind;
            [apply pads_nothing_call; reflexivity|intros ?]).
    destruct (B =? 0); [apply pads_nothing_raise|].
    destruct (_ =? 0); [apply pads_nothing_raise|].
    repeat (apply pads_nothing_bind;
            [apply pads_nothing_call; reflexivity|intros ?]).
    apply pads_nothing_ret. }
  destruct Hrest as (r & l & Hr & Hl).
  exists r, (EvPad _get_srp_generator (bit_length _get_srp_prime)
             :: EvPad A (bit_length _get_srp_prime)
             :: EvPad B (bit_length _get_srp_prime) :: l).
  split; [do 3 (eapply runs_call_bind; [reflexivity|]); exact Hr|].
  simpl. rewrite Hl.
  split; [exists 3%nat; split; [lia|reflexivity]|reflexivity].
Qed.

End PadCalls.

(** C2.  The claim asks for a padding width equal to the byte length of
    [N].  What [process_challenge] hands to [_pad] as width is
    [N.bit_length()], a number of bits: on every path, whatever [_pad]
    answers, each padding call it makes carries that width, the calls
    are those for [g], [A] and [B] in this order (stopping at the first
    that fails), and a run that returns has made all three.  From
    [N = 2] on, this width exceeds the byte length of [N]. *)
Theorem process_challenge_pad_width_is_bit_length
    {U : Utils} (identity password : string) (salt : bytes) (a A B : Z)
    (w : world) :
  let run := process_challenge identity password salt a A B in
  let pads := [ EvPad _get_srp_generator (bit_length _get_srp_prime);
                EvPad A (bit_length _get_srp_prime);
                EvPad B (bit_length _get_srp_prime) ] in
  (forall v width,
      In (EvPad v width) (performed run w) ->
      width = bit_length _get_srp_prime)
  /\ (exists n, (1 <= n <= 3)%nat
        /\ filter is_pad (performed run w) = firstn n pads)
  /\ (forall Mv K,
        fst (run w) = Ok (Mv, K) -> filter is_pad (performed run w) = pads)
  /\ (2 <= _get_srp_prime ->
      byte_length _get_srp_prime < bit_length _get_srp_prime).
Proof.
  intros run pads. subst run.
  destruct (challenge_pad_calls identity password salt a A B)
    as (r & l & Hr & (n & Hn & Hpre) & Hall).
  rewrite (runs_fst _ _ _ w Hr), (runs_performed _ _ _ w Hr).
  fold pads in Hpre, Hall.
  repeat split.
  - intros v width Hin.
    assert (Hf : In (EvPad v width) (filter is_pad l))
      by (apply filter_In; split; [exact Hin|reflexivity]).
    rewrite Hpre in Hf.
    assert (Hp : In (EvPad v width) pads).
    { rewrite <- (firstn_skipn n pads). apply in_or_app. now left. }
    simpl in Hp. destruct Hp as [Hp|[Hp|[Hp|[]]]]; now inversion Hp.
  - exists n. split; [exact Hn|exact Hpre].
  - intros Mv K HOk. now apply (Hall (Mv, K)).
  - intros HN. apply byte_length_lt_bit_length. exact HN.
Qed.

(** In the toy group [N = 23] takes one byte and five bits; the three
    paddings are asked at width 5. *)
Lemma process_challenge_pad_width_is_bit_length_witness :
  let run := process_challenge (U := toy_utils 23 5)
               "alice" "pw" toy_salt 6 8 9 in
  let pads := [EvPad 5 5; EvPad 8 5; EvPad 9 5] in
  (forall v width,
      In (EvPad v width) (performed run (toy_world 23 5 6)) -> width = 5)
  /\ (exists n, (1 <= n <= 3)%nat
        /\ filter is_pad (performed run (toy_world 23 5 6)) = firstn n pads)
  /\ (forall Mv K,
        fst (run (toy_world 23 5 6)) = Ok (Mv, K) ->
        filter is_pad (performed run (toy_world 23 5 6)) = pads)
  /\ (2 <= 23 -> byte_length 23 < 5).
Proof.
  apply (process_challenge_pad_width_is_bit_length
           (U := toy_utils 23 5) "alice" "pw" toy_salt 6 8 9
           (toy_world 23 5 6)).
Defined.

(** The claim as it is written fails in the toy group: the first call of
    [_pad] is made at width 5, and the byte length of 23 is 1. *)
Lemma process_challenge_pad_width_counterexample :
  ~ (forall v width,
        In (EvPad v width)
           (performed (process_challenge (U := toy_utils 23 5)
                         "alice" "pw" toy_salt 6 8 9) (toy_world 23 5 6)) ->
        width = byte_length (@_get_srp_prime (toy_utils 23 5))).
Proof.
  intros H.
  assert (Hin : In (EvPad 5 5)
                  (performed (process_challenge (U := toy_utils 23 5)
                                "alice" "pw" toy_salt 6 8 9)
                     (toy_world 23 5 6)))
    by (vm_compute; left; reflexivity).
  specialize (H 5 5 Hin). vm_compute in H. discriminate H.
Qed.

(** ** The two safety checks *)

(** C4.  Provided the helpers called before the checks return (and no
    helper raises a safety violation of its own), a safety violation is
    raised exactly when [B == 0] or [u == 0]; in particular [u = 0]
    raises one and passing both checks raises none.  When one is raised,
    the calls made are those of the checked prefix: no modular
    exponentiation has been performed and [S] has not been hashed. *)
Theorem process_challenge_safety_checks
    {U : Utils} (identity password : string) (salt : bytes) (a A B : Z)
    (pg pA pB hu : bytes) (x : Z) (hk : bytes) (w : world) :
  helpers_answer identity password salt A B pg pA pB hu x hk ->
  (forall args, is_safety_violation (hash_fn args) = false) ->
  (forall g N i s A' B' K,
      is_safety_violation (derive_M g N i s A' B' K) = false) ->
  let run := process_challenge identity password salt a A B in
  is_safety_violation (fst (run w)) = ((B =? 0) || (_to_int hu =? 0))%bool
  /\ (is_safety_violation (fst (run w)) = true ->
      performed run w = checked_prefix identity password salt A B pg pA pB
      /\ existsb is_pow (performed run w) = false
      /\ filter is_hash (performed run w)
         = [EvHash [HBytes pA; HBytes pB];
            EvHash [HInt _get_srp_prime; HBytes pg]]).
Proof.
  intros Hans HH HM run. subst run.
  destruct (Z.eqb_spec B 0) as [HB|HB].
  - pose proof (challenge_B_zero identity password salt a A B
                  _ _ _ _ _ _ Hans HB) as Hr.
    rewrite (runs_fst _ _ _ w Hr), (runs_performed _ _ _ w Hr).
    repeat split; reflexivity.
  - destruct (Z.eqb_spec (_to_int hu) 0) as [Hu|Hu].
    + pose proof (challenge_u_zero identity password salt a A B
                    _ _ _ _ _ _ Hans HB Hu) as Hr.
      rewrite (runs_fst _ _ _ w Hr), (runs_performed _ _ _ w Hr).
      repeat split; reflexivity.
    + rewrite (challenge_tail_not_safety identity password salt a A B
                 _ _ _ _ _ _ Hans HB Hu HH HM w).
      split; [reflexivity|discriminate].
Qed.

(** With [A = 8] and [B = 15] the toy hash gives [u = 0]. *)
Lemma process_challenge_safety_checks_witness :
  _to_int (toy_hash 23 [HBytes (toy_bytes [0; 0; 0; 0; 8]);
                        HBytes (to_bytes_width 15 5)]) = 0 /\
  let run := process_challenge (U := toy_utils 23 5)
               "alice" "pw" toy_salt 6 8 15 in
  is_safety_violation (fst (run (toy_world 23 5 6))) = true
  /\ (is_safety_violation (fst (run (toy_world 23 5 6))) = true ->
      performed run (toy_world 23 5 6)
      = checked_prefix (U := toy_utils 23 5) "alice" "pw" toy_salt 8 15
          (toy_bytes [0; 0; 0; 0; 5]) (toy_bytes [0; 0; 0; 0; 8])
          (to_bytes_width 15 5)
      /\ existsb is_pow (performed run (toy_world 23 5 6)) = false
      /\ filter is_hash (performed run (toy_world 23 5 6))
         = [EvHash [HBytes (toy_bytes [0; 0; 0; 0; 8]);
                    HBytes (to_bytes_width 15 5)];
            EvHash [HInt 23; HBytes (toy_bytes [0; 0; 0; 0; 5])]]).
Proof.
  split; [reflexivity|].
  apply (process_challenge_safety_checks
           (U := toy_utils 23 5) "alice" "pw" toy_salt 6 8 15
           _ _ _ _ _ _ (toy_world 23 5 6) (toy_answers 8 15 ltac:(lia) ltac:(lia))).
  - intros args. reflexivity.
  - intros g N i s A' B' K. reflexivity.
Defined.

(** ** Order of the checks *)

(** C10.  When [B] is 0 and [u] is 0 as well, the violation reported is
    the one about [B]; the one about [u] is not. *)
Theorem process_challenge_reports_B_first
    {U : Utils} (identity password : string) (salt : bytes) (a A B : Z)
    (pg pA pB hu : bytes) (x : Z) (hk : bytes) (w : world) :
  helpers_answer identity password salt A B pg pA pB hu x hk ->
  B = 0 -> _to_int hu = 0 ->
  fst (process_challenge identity password salt a A B w)
  = Raise (SafetyException "Public value B is 0. Auth Failed.")
  /\ fst (process_challenge identity password salt a A B w)
     <> Raise (SafetyException "Scrambler u is 0. Auth Failed.").
Proof.
  intros Hans HB _.
  pose proof (challenge_B_zero identity password salt a A B
                _ _ _ _ _ _ Hans HB) as Hr.
  rewrite (runs_fst _ _ _ w Hr). split; [reflexivity|discriminate].
Qed.

(** With [A = 0] and [B = 0] the toy hash gives [u = 0] too. *)
Lemma process_challenge_reports_B_first_witness :
  _to_int (toy_hash 23 [HBytes (to_bytes_width 0 5);
                        HBytes (to_bytes_width 0 5)]) = 0 /\
  fst (process_challenge (U := toy_utils 23 5) "alice" "pw" toy_salt 6 0 0
         (toy_world 23 5 6))
  = Raise (SafetyException "Public value B is 0. Auth Failed.")
  /\ fst (process_challenge (U := toy_utils 23 5) "alice" "pw" toy_salt 6 0 0
            (toy_world 23 5 6))
     <> Raise (SafetyException "Scrambler u is 0. Auth Failed.").
Proof.
  split; [reflexivity|].
  apply (process_challenge_reports_B_first
           (U := toy_utils 23 5) "alice" "pw" toy_salt 6 0 0
           _ _ _ _ _ _ (toy_world 23 5 6)
           (toy_answers 0 0 ltac:(lia) ltac:(lia))).
  - reflexivity.
  - reflexivity.
Defined.

(** ** The premaster secret *)

(** C3.  For inputs that pass both checks, in a group of positive
    modulus and with non-negative [a] and [x], the function computes
    [S = (B - k * (g^x mod N)) ^ (a + u * x) mod N]: the second call of
    [pow] receives the base [t1] as it is (possibly negative) and the
    exponent [a + u * x] unreduced, and its result is the non-negative
    residue, the same as after normalizing the base into [[0, N)].  [S]
    is what is hashed into the session key. *)
Theorem process_challenge_premaster_secret
    {U : Utils} (identity password : string) (salt : bytes) (a A B : Z)
    (pg pA pB hu : bytes) (x : Z) (hk K Mv : bytes) (w : world) :
  let N := _get_srp_prime in
  let g := _get_srp_generator in
  let u := _to_int hu in
  let k := _to_int hk in
  let t1 := B - k * (g ^ x mod N) in
  let t2 := a + u * x in
  let S := t1 ^ t2 mod N in
  helpers_answer identity password salt A B pg pA pB hu x hk ->
  B <> 0 -> u <> 0 ->
  0 < N -> 0 <= a -> 0 <= x ->
  hash_fn [HInt S] = Ok K ->
  derive_M g N identity salt A B K = Ok Mv ->
  fst (process_challenge identity password salt a A B w) = Ok (Mv, K)
  /\ performed (process_challenge identity password salt a A B) w
     = checked_prefix identity password salt A B pg pA pB ++
       [EvPow g x N; EvPow t1 t2 N; EvHash [HInt S];
        EvCalcM g N identity salt A B K]
  /\ py_pow t1 t2 N = Ok S
  /\ S = (t1 mod N) ^ t2 mod N
  /\ 0 <= t1 mod N < N
  /\ 0 <= S < N.
Proof.
  intros N g u k t1 t2 S Hans HB Hu HN Ha Hx HK HM.
  assert (Ht2 : 0 <= t2).
  { subst t2 u. pose proof (to_int_nonneg hu). nia. }
  assert (Hgx : py_pow g x N = Ok (g ^ x mod N))
    by (apply py_pow_nonneg_exp; lia).
  assert (HS : py_pow t1 t2 N = Ok S)
    by (apply py_pow_nonneg_exp; lia).
  pose proof (challenge_passes identity password salt a A B
                _ _ _ _ _ _ Hans (g ^ x mod N) S K Mv HB Hu Hgx HS HK HM)
    as Hr.
  rewrite (runs_fst _ _ _ w Hr), (runs_performed _ _ _ w Hr).
  repeat split; try reflexivity; try exact HS.
  - subst S. now rewrite Z.mod_pow_l.
  - apply Z.mod_pos_bound. exact HN.
  - apply Z.mod_pos_bound. exact HN.
  - apply Z.mod_pos_bound. exact HN.
  - apply Z.mod_pos_bound. exact HN.
Qed.

(** In the toy run with [B = 9] the base is [t1 = -91] and the exponent
    [t2 = 91] exceeds the modulus 23. *)
Lemma process_challenge_premaster_secret_witness :
  (9 - 5 * (5 ^ 5 mod 23) = -91 /\ 6 + 17 * 5 = 91) /\
  fst (process_challenge (U := toy_utils 23 5) "alice" "pw" toy_salt 6 8 9
         (toy_world 23 5 6))
  = Ok (toy_bytes [0; 0; 0; 4], toy_bytes [0; 0; 0; 1])
  /\ performed (process_challenge (U := toy_utils 23 5)
                  "alice" "pw" toy_salt 6 8 9) (toy_world 23 5 6)
     = checked_prefix (U := toy_utils 23 5) "alice" "pw" toy_salt 8 9
         (toy_bytes [0; 0; 0; 0; 5]) (to_bytes_width 8 5)
         (to_bytes_width 9 5) ++
       [EvPow 5 5 23; EvPow (-91) 91 23; EvHash [HInt 1];
        EvCalcM 5 23 "alice" toy_salt 8 9 (toy_bytes [0; 0; 0; 1])]
  /\ py_pow (-91) 91 23 = Ok 1
  /\ 1 = (-91 mod 23) ^ 91 mod 23
  /\ 0 <= -91 mod 23 < 23
  /\ 0 <= 1 < 23.
Proof.
  split; [split; reflexivity|].
  apply (process_challenge_premaster_secret
           (U := toy_utils 23 5) "alice" "pw" toy_salt 6 8 9
           _ _ _ _ _ _ _ _ (toy_world 23 5 6)
           (toy_answers 8 9 ltac:(lia) ltac:(lia))).
  - lia.
  - vm_compute. discriminate.
  - reflexivity.
  - lia.
  - lia.
  - reflexivity.
  - reflexivity.
Defined.

(** ** Hash inputs *)

(** C5.  On a run that passes the checks, the hash helper is called three
    times: on [(pad(A), pad(B))], both padded; on [(N, pad(g))], [N]
    handed over as an integer and [g] padded; and on [S] alone, handed
    over as an integer and not through [_pad].  [u] and [k], as used in
    the exponent and in the base of the final [pow], are the big-endian
    decodings of the first two digests, and the third digest is the
    session key returned. *)
Theorem process_challenge_hash_inputs
    {U : Utils} (identity password : string) (salt : bytes) (a A B : Z)
    (pg pA pB hu : bytes) (x : Z) (hk : bytes) (gx S : Z) (K Mv : bytes)
    (w : world) :
  helpers_answer identity password salt A B pg pA pB hu x hk ->
  B <> 0 -> _to_int hu <> 0 ->
  py_pow _get_srp_generator x _get_srp_prime = Ok gx ->
  py_pow (B - _to_int hk * gx) (a + _to_int hu * x) _get_srp_prime = Ok S ->
  hash_fn [HInt S] = Ok K ->
  derive_M _get_srp_generator _get_srp_prime identity salt A B K = Ok Mv ->
  let run := process_challenge identity password salt a A B in
  filter is_hash (performed run w)
  = [ EvHash [HBytes pA; HBytes pB];
      EvHash [HInt _get_srp_prime; HBytes pg];
      EvHash [HInt S] ]
  /\ filter is_pow (performed run w)
     = [ EvPow _get_srp_generator x _get_srp_prime;
         EvPow (B - _to_int hk * gx) (a + _to_int hu * x) _get_srp_prime ]
  /\ filter is_pad (performed run w)
     = [ EvPad _get_srp_generator (bit_length _get_srp_prime);
         EvPad A (bit_length _get_srp_prime);
         EvPad B (bit_length _get_srp_prime) ]
  /\ fst (run w) = Ok (Mv, K).
Proof.
  intros Hans HB Hu Hgx HS HK HM run. subst run.
  pose proof (challenge_passes identity password salt a A B
                _ _ _ _ _ _ Hans gx S K Mv HB Hu Hgx HS HK HM) as Hr.
  rewrite (runs_fst _ _ _ w Hr), (runs_performed _ _ _ w Hr).
  repeat split; reflexivity.
Qed.

Lemma process_challenge_hash_inputs_witness :
  let run := process_challenge (U := toy_utils 23 5)
               "alice" "pw" toy_salt 6 8 9 in
  filter is_hash (performed run (toy_world 23 5 6))
  = [ EvHash [HBytes (to_bytes_width 8 5); HBytes (to_bytes_width 9 5)];
      EvHash [HInt 23; HBytes (toy_bytes [0; 0; 0; 0; 5])];
      EvHash [HInt 1] ]
  /\ filter is_pow (performed run (toy_world 23 5 6))
     = [ EvPow 5 5 23; EvPow (-91) 91 23 ]
  /\ filter is_pad (performed run (toy_world 23 5 6))
     = [ EvPad 5 5; EvPad 8 5; EvPad 9 5 ]
  /\ fst (run (toy_world 23 5 6))
     = Ok (toy_bytes [0; 0; 0; 4], toy_bytes [0; 0; 0; 1]).
Proof.
  apply (process_challenge_hash_inputs
           (U := toy_utils 23 5) "alice" "pw" toy_salt 6 8 9
           _ _ _ _ _ _ 20 1 _ _ (toy_world 23 5 6)
           (toy_answers 8 9 ltac:(lia) ltac:(lia))).
  - lia.
  - vm_compute. discriminate.
  - reflexivity.
  - reflexivity.
  - reflexivity.
  - reflexivity.
Defined.

(** ** Server evidence *)

Lemma bytes_ne_true (x y : bytes) : bytes_ne x y = true <-> x <> y.
Proof.
  unfold bytes_ne. destruct (bytes_eq_dec x y); split; congruence.
Qed.

Lemma bytes_ne_false (x y : bytes) : bytes_ne x y = false <-> x = y.
Proof.
  unfold bytes_ne. destruct (bytes_eq_dec x y); split; congruence.
Qed.

(** Two byte strings differ exactly when they differ at some position
    (a position present in only one of them counts). *)
Lemma bytes_differ_at (x y : bytes) :
  x <> y <-> exists i, nth_error x i <> nth_error y i.
Proof.
  split.
  - revert y. induction x as [|b x IH]; intros [|c y] Hne.
    + contradiction.
    + exists 0%nat. discriminate.
    + exists 0%nat. discriminate.
    + destruct (Byte.byte_eq_dec b c) as [->|Hbc].
      * destruct (IH y) as [i Hi]; [congruence|]. now exists (S i).
      * exists 0%nat. simpl. congruence.
  - intros [i Hi] ->. contradiction.
Qed.

(** C6.  [verify_session] hashes [(A, M, session_key)] once.  When the
    hash returns [h], an evidence mismatch (which is not a safety
    violation) is raised if and only if the server's value differs from
    [h], that is, differs at some byte position; on a match [h] is
    returned. *)
Theorem verify_session_spec
    {U : Utils} (A : Z) (M session_key server_H_AMK h : bytes) (w : world) :
  hash_fn [HInt A; HBytes M; HBytes session_key] = Ok h ->
  let run := verify_session A M session_key server_H_AMK in
  performed run w = [EvHash [HInt A; HBytes M; HBytes session_key]]
  /\ (is_evidence_mismatch (fst (run w)) = true <-> server_H_AMK <> h)
  /\ (server_H_AMK <> h <->
      exists i, nth_error server_H_AMK i <> nth_error h i)
  /\ (server_H_AMK <> h ->
      fst (run w)
      = Raise (EvidenceException "Evidence keys do not match. Auth Failed."))
  /\ (server_H_AMK = h -> fst (run w) = Ok h)
  /\ is_safety_violation (fst (run w)) = false.
Proof.
  intros Hh run. subst run.
  assert (Hr : forall r,
    (if bytes_ne h server_H_AMK
     then Raise (EvidenceException "Evidence keys do not match. Auth Failed.")
     else Ok h) = r ->
    runs (verify_session A M session_key server_H_AMK) r
         [EvHash [HInt A; HBytes M; HBytes session_key]]).
  { intros r <-. unfold verify_session, _Hash.
    eapply runs_call_bind; [exact Hh|].
    destruct (bytes_ne h server_H_AMK); [apply runs_raise|apply runs_ret]. }
  specialize (Hr _ eq_refl).
  rewrite (runs_fst _ _ _ w Hr), (runs_performed _ _ _ w Hr).
  destruct (bytes_ne h server_H_AMK) eqn:E; simpl.
  - apply bytes_ne_true in E.
    assert (Hd : server_H_AMK <> h) by congruence.
    repeat split; try reflexivity; try tauto; try congruence;
      now apply bytes_differ_at.
  - apply bytes_ne_false in E. subst h.
    repeat split; try reflexivity; try tauto; try congruence;
      try discriminate; now apply bytes_differ_at.
Qed.

(** A server value whose last byte is off by one is rejected. *)
Lemma verify_session_spec_witness :
  let run := verify_session (U := toy_utils 23 5) 8
               (toy_bytes [0; 0; 0; 4]) (toy_bytes [0; 0; 0; 1])
               (toy_bytes [0; 0; 0; 14]) in
  let h := toy_bytes [0; 0; 0; 13] in
  performed run (toy_world 23 5 6)
  = [EvHash [HInt 8; HBytes (toy_bytes [0; 0; 0; 4]);
             HBytes (toy_bytes [0; 0; 0; 1])]]
  /\ (is_evidence_mismatch (fst (run (toy_world 23 5 6))) = true <->
      toy_bytes [0; 0; 0; 14] <> h)
  /\ (toy_bytes [0; 0; 0; 14] <> h <->
      exists i, nth_error (toy_bytes [0; 0; 0; 14]) i <> nth_error h i)
  /\ (toy_bytes [0; 0; 0; 14] <> h ->
      fst (run (toy_world 23 5 6))
      = Raise (EvidenceException "Evidence keys do not match. Auth Failed."))
  /\ (toy_bytes [0; 0; 0; 14] = h -> fst (run (toy_world 23 5 6)) = Ok h)
  /\ is_safety_violation (fst (run (toy_world 23 5 6))) = false.
Proof.
  apply (verify_session_spec (U := toy_utils 23 5) 8
           (toy_bytes [0; 0; 0; 4]) (toy_bytes [0; 0; 0; 1])
           (toy_bytes [0; 0; 0; 14]) (toy_bytes [0; 0; 0; 13])
           (toy_world 23 5 6)).
  reflexivity.
Defined.

(** ** Ephemeral key pair *)

(** C7.  [generate_a_pair] asks the Random Source for 32 bytes.  If the
    source fails, its failure is the outcome, unchanged, and nothing
    else is called.  Otherwise, whatever bytes it gives (under its
    contract: 32 of them), [a] is their big-endian unsigned decoding,
    returned without any range check, and [A = g^a mod N], computed by
    one call of [pow]; with a non-zero modulus nothing can fail. *)
Theorem generate_a_pair_spec {U : Utils} (w : world) :
  _get_srp_prime <> 0 ->
  (forall n r rnd r',
      0 <= n -> random_source n r = (Ok rnd, r') ->
      Z.of_nat (List.length rnd) = n) ->
  match random_source 32 (entropy w) with
  | (Ok rnd, r') =>
      generate_a_pair w
      = (Ok (_to_int rnd,
             _get_srp_generator ^ _to_int rnd mod _get_srp_prime),
         World r' (calls w ++
                   [EvRandom 32;
                    EvPow _get_srp_generator (_to_int rnd) _get_srp_prime]))
      /\ (32 <= List.length rnd)%nat
      /\ 0 <= _to_int rnd
  | (Raise e, r') =>
      generate_a_pair w = (Raise e, World r' (calls w ++ [EvRandom 32]))
  end.
Proof.
  intros HN Hsrc.
  unfold generate_a_pair, bind, _generate_random_bytes, pow, call, ret.
  pose proof (Hsrc 32 (entropy w)) as Hlen.
  destruct (random_source 32 (entropy w)) as [[rnd|e] r']; [|reflexivity].
  specialize (Hlen rnd r' ltac:(lia) eq_refl).
  pose proof (to_int_nonneg rnd) as Ha.
  rewrite py_pow_nonneg_exp by assumption.
  cbn [entropy calls]. rewrite <- app_assoc.
  repeat split; try lia.
Qed.

Lemma toy_random_length (n r : Z) (rnd : bytes) (r' : Z) :
  0 <= n -> toy_random n r = (Ok rnd, r') -> Z.of_nat (List.length rnd) = n.
Proof.
  intros Hn. unfold toy_random. destruct (r <? 0); [discriminate|].
  intros [= <- _]. rewrite to_bytes_width_length. lia.
Qed.

(** The toy source seeded with 6 gives [a = 6] and [A = 5^6 mod 23 = 8];
    seeded with -1 it is exhausted. *)
Lemma generate_a_pair_spec_witness :
  (generate_a_pair (toy_world 23 5 6)
   = (Ok (6, 8),
      @World (toy_utils 23 5) 7 [EvRandom 32; EvPow 5 6 23])
   /\ (32 <= List.length (to_bytes_width 6 32))%nat
   /\ 0 <= _to_int (to_bytes_width 6 32))
  /\ generate_a_pair (toy_world 23 5 (-1))
     = (Raise (Upstream "entropy exhausted"),
        @World (toy_utils 23 5) (-1) [EvRandom 32]).
Proof.
  split.
  - apply (generate_a_pair_spec (U := toy_utils 23 5) (toy_world 23 5 6)).
    + simpl. lia.
    + exact toy_random_length.
  - apply (generate_a_pair_spec (U := toy_utils 23 5) (toy_world 23 5 (-1))).
    + simpl. lia.
    + exact toy_random_length.
Defined.

(** C9.  Whenever the Random Source answers, in a group of positive
    modulus, [generate_a_pair] returns a non-negative [a] and a public
    value [A] with [0 <= A < N]; if moreover [N] is prime and does not
    divide [g], then [A] is not congruent to 0 modulo [N]. *)
Theorem generate_a_pair_public_value
    {U : Utils} (w : world) (rnd : bytes) (r' : rng) :
  0 < _get_srp_prime ->
  random_source 32 (entropy w) = (Ok rnd, r') ->
  exists a A,
    fst (generate_a_pair w) = Ok (a, A)
    /\ 0 <= a
    /\ 0 <= A < _get_srp_prime
    /\ (Z.prime _get_srp_prime -> ~ (_get_srp_prime | _get_srp_generator) ->
        A mod _get_srp_prime <> 0).
Proof.
  intros HN Hrnd.
  pose proof (to_int_nonneg rnd) as Ha.
  exists (_to_int rnd), (_get_srp_generator ^ _to_int rnd mod _get_srp_prime).
  split.
  - unfold generate_a_pair, bind, _generate_random_bytes, pow, call, ret.
    rewrite Hrnd. rewrite py_pow_nonneg_exp by lia. reflexivity.
  - split; [exact Ha|]. split; [apply Z.mod_pos_bound; exact HN|].
    intros Hp Hg. rewrite Z.mod_mod by lia.
    intros Hz. apply Z.mod_divide in Hz; [|lia].
    exact (prime_not_divide_pow _ _ Hp Hg _ Ha Hz).
Qed.

Lemma generate_a_pair_public_value_witness :
  Z.prime 23 /\ ~ (23 | 5) /\
  exists a A,
    fst (generate_a_pair (toy_world 23 5 6)) = Ok (a, A)
    /\ 0 <= a
    /\ 0 <= A < 23
    /\ (Z.prime 23 -> ~ (23 | 5) -> A mod 23 <> 0).
Proof.
  split; [exact prime_23|]. split; [exact toy_not_multiple|].
  apply (generate_a_pair_public_value (U := toy_utils 23 5)
           (toy_world 23 5 6) (to_bytes_width 6 32) 7).
  - simpl. lia.
  - reflexivity.
Defined.

(** ** Determinism *)

(** C8.  The outcome of [process_challenge] (the pair [(M, session_key)],
    or the exception) and the calls it makes depend on its arguments and
    on the helpers only, not on the world it is started in: two
    invocations with the same arguments give the same outcome, and
    the Random Source is left as it was. *)
Theorem process_challenge_deterministic
    {U : Utils} (identity password : string) (salt : bytes) (a A B : Z)
    (w1 w2 : world) :
  let run := process_challenge identity password salt a A B in
  fst (run w1) = fst (run w2)
  /\ performed run w1 = performed run w2
  /\ entropy (snd (run w1)) = entropy w1
  /\ fst (run (snd (run w1))) = fst (run w1).
Proof.
  intros run. subst run.
  destruct (steady_process_challenge identity password salt a A B)
    as (r & l & Hr).
  rewrite !(runs_fst _ _ _ _ Hr), !(runs_performed _ _ _ _ Hr),
    (runs_entropy _ _ _ _ Hr).
  repeat split.
Qed.

(** * Further properties of [client.py] *)

(** ** The arithmetic of the premaster secret *)

(** With a server value [B] congruent to [k * g^x + g^b], the base of the
    final [pow] is congruent to [g^b], so the client's secret is a power
    of the generator. *)
Lemma client_secret_power (N g a x u k b B : Z) :
  0 < N -> 0 <= a -> 0 <= x -> 0 <= u -> 0 <= b ->
  B mod N = (k * (g ^ x mod N) + g ^ b) mod N ->
  (B - k * (g ^ x mod N)) ^ (a + u * x) mod N
  = g ^ (b * (a + u * x)) mod N.
Proof.
  intros HN Ha Hx Hu Hb HB.
  assert (Ht2 : 0 <= a + u * x) by nia.
  rewrite <- Z.mod_pow_l.
  assert (Ht1 : (B - k * (g ^ x mod N)) mod N = g ^ b mod N).
  { rewrite <- Zminus_mod_idemp_l, HB, Zminus_mod_idemp_l.
    f_equal. ring. }
  rewrite Ht1, Z.mod_pow_l, <- Z.pow_mul_r by assumption.
  reflexivity.
Qed.

(** The server's side: [(A * v^u)^b] with [A = g^a] and [v = g^x]. *)
Lemma server_secret_power (N g a x u b A : Z) :
  0 < N -> 0 <= a -> 0 <= x -> 0 <= u -> 0 <= b ->
  A mod N = g ^ a mod N ->
  (A * (g ^ x mod N) ^ u) ^ b mod N = g ^ (b * (a + u * x)) mod N.
Proof.
  intros HN Ha Hx Hu Hb HA.
  assert (Ht2 : 0 <= a + u * x) by nia.
  rewrite <- Z.mod_pow_l.
  assert (Hbase : (A * (g ^ x mod N) ^ u) mod N = g ^ (a + u * x) mod N).
  { rewrite Z.mul_mod, HA, Z.mod_pow_l, <- Z.mul_mod by lia.
    rewrite <- Z.pow_mul_r, Z.pow_add_r by nia.
    f_equal. f_equal. f_equal. ring. }
  rewrite Hbase, Z.mod_pow_l, <- Z.pow_mul_r by assumption.
  f_equal. f_equal. ring.
Qed.

(** X1.  Key agreement.  When the client's [A] is [g^a] and the server's
    [B] is congruent to [k * v + g^b] for the verifier [v = g^x mod N],
    the secret the client hashes is the server's [(A * v^u)^b mod N]: the
    session key returned is the hash of the server's premaster secret. *)
Theorem process_challenge_agrees_with_server
    {U : Utils} (identity password : string) (salt : bytes) (a A B : Z)
    (pg pA pB hu : bytes) (x : Z) (hk K Mv : bytes) (b : Z) (w : world) :
  let N := _get_srp_prime in
  let g := _get_srp_generator in
  let u := _to_int hu in
  let k := _to_int hk in
  let v := g ^ x mod N in
  let server_S := (A * v ^ u) ^ b mod N in
  helpers_answer identity password salt A B pg pA pB hu x hk ->
  B <> 0 -> u <> 0 ->
  0 < N -> 0 <= a -> 0 <= x -> 0 <= b ->
  A mod N = g ^ a mod N ->
  B mod N = (k * v + g ^ b) mod N ->
  hash_fn [HInt server_S] = Ok K ->
  derive_M g N identity salt A B K = Ok Mv ->
  fst (process_challenge identity password salt a A B w) = Ok (Mv, K)
  /\ py_pow (B - k * v) (a + u * x) N = Ok server_S
  /\ filter is_hash (performed (process_challenge identity password salt
                                  a A B) w)
     = [ EvHash [HBytes pA; HBytes pB]; EvHash [HInt N; HBytes pg];
         EvHash [HInt server_S] ].
Proof.
  intros N g u k v server_S Hans HB Hu HN Ha Hx Hb HA HBs HK HM.
  assert (Hu0 : 0 <= u) by apply to_int_nonneg.
  assert (Ht2 : 0 <= a + u * x) by nia.
  assert (Hgx : py_pow g x N = Ok v) by (apply py_pow_nonneg_exp; lia).
  assert (HS : py_pow (B - k * v) (a + u * x) N = Ok server_S).
  { rewrite py_pow_nonneg_exp by lia. f_equal. subst server_S v.
    rewrite (client_secret_power N g a x u k b B) by assumption.
    now rewrite (server_secret_power N g a x u b A). }
  pose proof (challenge_passes identity password salt a A B
                _ _ _ _ _ _ Hans v server_S K Mv HB Hu Hgx HS HK HM) as Hr.
  rewrite (runs_fst _ _ _ w Hr), (runs_performed _ _ _ w Hr).
  repeat split; try reflexivity. exact HS.
Qed.

(** Toy run: [a = 6], [A = 8], server secret [b = 3], [B = 18]; both
    sides arrive at [S = 7]. *)
Lemma process_challenge_agrees_with_server_witness :
  (8 mod 23 = 5 ^ 6 mod 23 /\ 18 mod 23 = (5 * (5 ^ 5 mod 23) + 5 ^ 3) mod 23
   /\ (8 * (5 ^ 5 mod 23) ^ 3) ^ 3 mod 23 = 7) /\
  fst (process_challenge (U := toy_utils 23 5) "alice" "pw" toy_salt 6 8 18
         (toy_world 23 5 6))
  = Ok (toy_bytes [0; 0; 0; 19], toy_bytes [0; 0; 0; 7])
  /\ py_pow (18 - 5 * (5 ^ 5 mod 23)) (6 + 3 * 5) 23 = Ok 7
  /\ filter is_hash (performed (process_challenge (U := toy_utils 23 5)
                                  "alice" "pw" toy_salt 6 8 18)
                       (toy_world 23 5 6))
     = [ EvHash [HBytes (to_bytes_width 8 5); HBytes (to_bytes_width 18 5)];
         EvHash [HInt 23; HBytes (toy_bytes [0; 0; 0; 0; 5])];
         EvHash [HInt 7] ].
Proof.
  split; [repeat split; reflexivity|].
  apply (process_challenge_agrees_with_server
           (U := toy_utils 23 5) "alice" "pw" toy_salt 6 8 18
           _ _ _ _ _ _ _ _ 3 (toy_world 23 5 6)
           (toy_answers 8 18 ltac:(lia) ltac:(lia))).
  - lia.
  - vm_compute. discriminate.
  - reflexivity.
  - lia.
  - lia.
  - lia.
  - reflexivity.
  - reflexivity.
  - reflexivity.
  - reflexivity.
Defined.

(** X2.  With an honest server in a group whose prime modulus does not
    divide the generator, the premaster secret computed by the client is
    never 0: it lies in [[1, N - 1]]. *)
Theorem process_challenge_secret_nonzero
    {U : Utils} (identity password : string) (salt : bytes) (a A B : Z)
    (pg pA pB hu : bytes) (x : Z) (hk : bytes) (b : Z) (w : world) :
  let N := _get_srp_prime in
  let g := _get_srp_generator in
  let u := _to_int hu in
  let k := _to_int hk in
  let v := g ^ x mod N in
  helpers_answer identity password salt A B pg pA pB hu x hk ->
  B <> 0 -> u <> 0 ->
  Z.prime N -> ~ (N | g) -> 0 <= a -> 0 <= x -> 0 <= b ->
  B mod N = (k * v + g ^ b) mod N ->
  exists S,
    1 <= S < N
    /\ filter is_pow (performed (process_challenge identity password salt
                                   a A B) w)
       = [EvPow g x N; EvPow (B - k * v) (a + u * x) N]
    /\ py_pow (B - k * v) (a + u * x) N = Ok S
    /\ In (EvHash [HInt S])
          (performed (process_challenge identity password salt a A B) w).
Proof.
  intros N g u k v Hans HB Hu Hp Hg Ha Hx Hb HBs.
  pose proof (Z.prime_ge_2 N Hp) as HN2.
  assert (Hu0 : 0 <= u) by apply to_int_nonneg.
  assert (Ht2 : 0 <= a + u * x) by nia.
  set (S := (B - k * v) ^ (a + u * x) mod N).
  assert (Hgx : py_pow g x N = Ok v) by (apply py_pow_nonneg_exp; lia).
  assert (HS : py_pow (B - k * v) (a + u * x) N = Ok S)
    by (apply py_pow_nonneg_exp; lia).
  assert (HSne : S <> 0).
  { subst S v. rewrite (client_secret_power N g a x u k b B) by (assumption || lia).
    intros Hz. apply Z.mod_divide in Hz; [|lia].
    apply (prime_not_divide_pow N g Hp Hg (b * (a + u * x))); [nia|exact Hz]. }
  pose proof (Z.mod_pos_bound ((B - k * v) ^ (a + u * x)) N ltac:(lia)) as Hr.
  fold S in Hr.
  exists S. split; [lia|].
  (* the calls past the checks, whatever the two last helpers answer *)
  assert (Hpre : forall r' l',
    runs (session_key <- _Hash [HInt S] ;;
          M <- _calculate_M g N identity salt A B session_key ;;
          ret (M, session_key)) r' l' ->
    runs (process_challenge identity password salt a A B) r'
         (checked_prefix identity password salt A B pg pA pB ++
          EvPow g x N :: EvPow (B - k * v) (a + u * x) N :: l')).
  { intros r' l' Hr'. unfold checked_prefix. simpl app.
    unfold process_challenge, _pad, _Hash, _calculate_x.
    destruct Hans.
    do 6 (eapply runs_call_bind; [eassumption|]).
    destruct (Z.eqb_spec B 0); [contradiction|].
    destruct (Z.eqb_spec (_to_int hu) 0); [contradiction|].
    unfold pow.
    eapply runs_call_bind; [exact Hgx|].
    eapply runs_call_bind; [exact HS|].
    exact Hr'. }
  unfold _Hash, _calculate_M in Hpre.
  destruct (hash_fn [HInt S]) as [K|e] eqn:EK.
  - destruct (derive_M g N identity salt A B K) as [Mv|e] eqn:EM.
    + specialize (Hpre (Ok (Mv, K))
        [EvHash [HInt S]; EvCalcM g N identity salt A B K]).
      rewrite (runs_performed _ _ _ w
                 (Hpre ltac:(eapply runs_call_bind; [reflexivity|];
                              eapply runs_call_bind; [exact EM|];
                              apply runs_ret))).
      repeat split; try reflexivity; try exact HS.
      apply in_or_app. right. simpl. tauto.
    + specialize (Hpre (Raise e)
        [EvHash [HInt S]; EvCalcM g N identity salt A B K]).
      rewrite (runs_performed _ _ _ w
                 (Hpre ltac:(eapply runs_call_bind; [reflexivity|];
                              eapply runs_call_bind_raise; exact EM))).
      repeat split; try reflexivity; try exact HS.
      apply in_or_app. right. simpl. tauto.
  - specialize (Hpre (Raise e) [EvHash [HInt S]]).
    rewrite (runs_performed _ _ _ w
               (Hpre ltac:(eapply runs_call_bind_raise; reflexivity))).
    repeat split; try reflexivity; try exact HS.
    apply in_or_app. right. simpl. tauto.
Qed.

Lemma process_challenge_secret_nonzero_witness :
  exists S,
    1 <= S < 23
    /\ filter is_pow (performed (process_challenge (U := toy_utils 23 5)
                                   "alice" "pw" toy_salt 6 8 18)
                        (toy_world 23 5 6))
       = [EvPow 5 5 23; EvPow (18 - 5 * (5 ^ 5 mod 23)) (6 + 3 * 5) 23]
    /\ py_pow (18 - 5 * (5 ^ 5 mod 23)) (6 + 3 * 5) 23 = Ok S
    /\ In (EvHash [HInt S])
          (performed (process_challenge (U := toy_utils 23 5)
                        "alice" "pw" toy_salt 6 8 18) (toy_world 23 5 6)).
Proof.
  apply (process_challenge_secret_nonzero
           (U := toy_utils 23 5) "alice" "pw" toy_salt 6 8 18
           _ _ _ _ _ _ 3 (toy_world 23 5 6)
           (toy_answers 8 18 ltac:(lia) ltac:(lia))).
  - lia.
  - vm_compute. discriminate.
  - exact prime_23.
  - exact toy_not_multiple.
  - lia.
  - lia.
  - lia.
  - reflexivity.
Defined.

(** ** The three functions in sequence *)

Lemma generate_a_pair_ok {U : Utils} (w : world) (rnd : bytes) (r' : rng) :
  _get_srp_prime <> 0 ->
  random_source 32 (entropy w) = (Ok rnd, r') ->
  generate_a_pair w
  = (Ok (_to_int rnd, _get_srp_generator ^ _to_int rnd mod _get_srp_prime),
     World r' (calls w ++
               [EvRandom 32;
                EvPow _get_srp_generator (_to_int rnd) _get_srp_prime])).
Proof.
  intros HN Hrnd.
  unfold generate_a_pair, bind, _generate_random_bytes, pow, call, ret.
  rewrite Hrnd.
  rewrite py_pow_nonneg_exp by (assumption || apply to_int_nonneg).
  cbn [entropy calls]. now rewrite <- app_assoc.
Qed.

Lemma verify_session_match {U : Utils} (A : Z) (M K h : bytes) :
  hash_fn [HInt A; HBytes M; HBytes K] = Ok h ->
  runs (verify_session A M K h) (Ok h) [EvHash [HInt A; HBytes M; HBytes K]].
Proof.
  intros Hh. unfold verify_session, _Hash.
  eapply runs_call_bind; [exact Hh|].
  assert (E : bytes_ne h h = false) by now apply bytes_ne_false.
  rewrite E. apply runs_ret.
Qed.

(** X3.  A whole exchange with an honest server.  The pair produced by
    [generate_a_pair], fed to [process_challenge] together with a server
    value [B = k * v + g^b] (modulo [N]), yields a message and the hash of
    the server's premaster secret as session key; [verify_session] then
    accepts the server's evidence [H(A, M, session_key)].  The three
    functions make thirteen calls in all, and only the first draws from
    the Random Source. *)
Theorem handshake_authenticates
    {U : Utils} (identity password : string) (salt : bytes) (B : Z)
    (pg pA pB hu : bytes) (x : Z) (hk K Mv h : bytes) (b : Z)
    (rnd : bytes) (r' : rng) (w : world) :
  let N := _get_srp_prime in
  let g := _get_srp_generator in
  let a := _to_int rnd in
  let A := g ^ a mod N in
  let u := _to_int hu in
  let k := _to_int hk in
  let v := g ^ x mod N in
  let server_S := (A * v ^ u) ^ b mod N in
  0 < N ->
  random_source 32 (entropy w) = (Ok rnd, r') ->
  helpers_answer identity password salt A B pg pA pB hu x hk ->
  B <> 0 -> u <> 0 -> 0 <= x -> 0 <= b ->
  B mod N = (k * v + g ^ b) mod N ->
  hash_fn [HInt server_S] = Ok K ->
  derive_M g N identity salt A B K = Ok Mv ->
  hash_fn [HInt A; HBytes Mv; HBytes K] = Ok h ->
  let s1 := generate_a_pair w in
  let s2 := process_challenge identity password salt a A B (snd s1) in
  let s3 := verify_session A Mv K h (snd s2) in
  fst s1 = Ok (a, A)
  /\ fst s2 = Ok (Mv, K)
  /\ fst s3 = Ok h
  /\ entropy (snd s3) = r'
  /\ calls (snd s3)
     = calls w ++ [EvRandom 32; EvPow g a N] ++
       checked_prefix identity password salt A B pg pA pB ++
       [EvPow g x N; EvPow (B - k * v) (a + u * x) N;
        EvHash [HInt server_S]; EvCalcM g N identity salt A B K;
        EvHash [HInt A; HBytes Mv; HBytes K]].
Proof.
  intros N g a A u k v server_S HN Hrnd Hans HB Hu Hx Hb HBs HK HM Hh
    s1 s2 s3.
  assert (Ha : 0 <= a) by apply to_int_nonneg.
  assert (Hu0 : 0 <= u) by apply to_int_nonneg.
  assert (Hgx : py_pow g x N = Ok v) by (apply py_pow_nonneg_exp; lia).
  assert (HS : py_pow (B - k * v) (a + u * x) N = Ok server_S).
  { rewrite py_pow_nonneg_exp by nia. f_equal. subst server_S v.
    rewrite (client_secret_power N g a x u k b B) by assumption.
    rewrite (server_secret_power N g a x u b A); [reflexivity|try assumption..].
    subst A. now rewrite Z.mod_mod by lia. }
  pose proof (generate_a_pair_ok w rnd r' ltac:(lia) Hrnd) as H1.
  pose proof (challenge_passes identity password salt a A B
                _ _ _ _ _ _ Hans v server_S K Mv HB Hu Hgx HS HK HM) as H2.
  pose proof (verify_session_match A Mv K h Hh) as H3.
  subst s3 s2 s1. rewrite H1. cbn [fst snd].
  rewrite H2. cbn [fst snd entropy calls].
  rewrite H3. cbn [fst snd entropy calls].
  repeat split; try reflexivity.
  rewrite <- !app_assoc. reflexivity.
Qed.

Lemma handshake_authenticates_witness :
  let s1 := generate_a_pair (toy_world 23 5 6) in
  let s2 := process_challenge (U := toy_utils 23 5) "alice" "pw" toy_salt
              6 8 18 (snd s1) in
  let s3 := verify_session (U := toy_utils 23 5) 8 (toy_bytes [0; 0; 0; 19])
              (toy_bytes [0; 0; 0; 7]) (toy_bytes [0; 0; 0; 11]) (snd s2) in
  fst s1 = Ok (6, 8)
  /\ fst s2 = Ok (toy_bytes [0; 0; 0; 19], toy_bytes [0; 0; 0; 7])
  /\ fst s3 = Ok (toy_bytes [0; 0; 0; 11])
  /\ entropy (snd s3) = 7
  /\ calls (snd s3)
     = [] ++ [EvRandom 32; EvPow 5 6 23] ++
       checked_prefix (U := toy_utils 23 5) "alice" "pw" toy_salt 8 18
         (toy_bytes [0; 0; 0; 0; 5]) (to_bytes_width 8 5)
         (to_bytes_width 18 5) ++
       [EvPow 5 5 23; EvPow (-82) 21 23; EvHash [HInt 7];
        EvCalcM 5 23 "alice" toy_salt 8 18 (toy_bytes [0; 0; 0; 7]);
        EvHash [HInt 8; HBytes (toy_bytes [0; 0; 0; 19]);
                HBytes (toy_bytes [0; 0; 0; 7])]].
Proof.
  apply (handshake_authenticates
           (U := toy_utils 23 5) "alice" "pw" toy_salt 18
           (toy_bytes [0; 0; 0; 0; 5]) (to_bytes_width 8 5)
           (to_bytes_width 18 5)
           (toy_hash 23 [HBytes (to_bytes_width 8 5);
                         HBytes (to_bytes_width 18 5)])
           5 (toy_bytes [0; 0; 0; 5]) (toy_bytes [0; 0; 0; 7])
           (toy_bytes [0; 0; 0; 19]) (toy_bytes [0; 0; 0; 11]) 3
           (to_bytes_width 6 32) 7 (toy_world 23 5 6)).
  - simpl. lia.
  - reflexivity.
  - exact (toy_answers 8 18 ltac:(lia) ltac:(lia)).
  - lia.
  - vm_compute. discriminate.
  - lia.
  - lia.
  - reflexivity.
  - reflexivity.
  - reflexivity.
  - reflexivity.
Defined.

(** ** What a returned result guarantees *)

(** X4.  [process_challenge] never returns a message and key unless both
    checks passed: whatever the helpers do, a returned pair means that
    [B] is not 0, that the three paddings and the hash of the padded
    public values succeeded with a non-zero [u], and that the session key
    is the hash of the outcome [S] of the final [pow]. *)
Theorem process_challenge_returns_only_past_checks
    {U : Utils} (identity password : string) (salt : bytes) (a A B : Z)
    (Mv K : bytes) (w : world) :
  fst (process_challenge identity password salt a A B w) = Ok (Mv, K) ->
  B <> 0
  /\ exists pg pA pB hu x hk gx S,
       helpers_answer identity password salt A B pg pA pB hu x hk
       /\ _to_int hu <> 0
       /\ py_pow _get_srp_generator x _get_srp_prime = Ok gx
       /\ py_pow (B - _to_int hk * gx) (a + _to_int hu * x) _get_srp_prime
          = Ok S
       /\ hash_fn [HInt S] = Ok K
       /\ derive_M _get_srp_generator _get_srp_prime identity salt A B K
          = Ok Mv.
Proof.
  unfold process_challenge, _pad, _Hash, _calculate_x, _calculate_M, pow,
    bind, call, ret, raise.
  cbn [entropy calls].
  destruct (pad_spec _get_srp_generator _) as [pg|] eqn:Epg;
    [|discriminate].
  destruct (pad_spec A _) as [pA|] eqn:EpA; [|discriminate].
  destruct (pad_spec B _) as [pB|] eqn:EpB; [|discriminate].
  destruct (hash_fn [HBytes pA; HBytes pB]) as [hu|] eqn:Ehu; [|discriminate].
  destruct (derive_x salt identity password) as [x|] eqn:Ex; [|discriminate].
  destruct (hash_fn [HInt _get_srp_prime; HBytes pg]) as [hk|] eqn:Ehk;
    [|discriminate].
  destruct (Z.eqb_spec B 0) as [|HB]; [discriminate|].
  destruct (Z.eqb_spec (_to_int hu) 0) as [|Hu]; [discriminate|].
  destruct (py_pow _get_srp_generator x _get_srp_prime) as [gx|] eqn:Egx;
    [|discriminate].
  destruct (py_pow (B - _to_int hk * gx) _ _) as [S|] eqn:ES; [|discriminate].
  destruct (hash_fn [HInt S]) as [K'|] eqn:EK; [|discriminate].
  destruct (derive_M _ _ identity salt A B K') as [Mv'|] eqn:EM;
    [|discriminate].
  cbn [fst]. intros [= <- <-].
  split; [exact HB|].
  exists pg, pA, pB, hu, x, hk, gx, S.
  repeat split; assumption.
Qed.

Lemma process_challenge_returns_only_past_checks_witness :
  fst (process_challenge (U := toy_utils 23 5) "alice" "pw" toy_salt 6 8 9
         (toy_world 23 5 6))
  = Ok (toy_bytes [0; 0; 0; 4], toy_bytes [0; 0; 0; 1])
  /\ 9 <> 0
  /\ exists pg pA pB hu x hk gx S,
       helpers_answer (U := toy_utils 23 5) "alice" "pw" toy_salt 8 9
         pg pA pB hu x hk
       /\ _to_int hu <> 0
       /\ py_pow 5 x 23 = Ok gx
       /\ py_pow (9 - _to_int hk * gx) (6 + _to_int hu * x) 23 = Ok S
       /\ @hash_fn (toy_utils 23 5) [HInt S] = Ok (toy_bytes [0; 0; 0; 1])
       /\ @derive_M (toy_utils 23 5) 5 23 "alice" toy_salt 8 9
            (toy_bytes [0; 0; 0; 1])
          = Ok (toy_bytes [0; 0; 0; 4]).
Proof.
  split; [reflexivity|].
  apply (process_challenge_returns_only_past_checks
           (U := toy_utils 23 5) "alice" "pw" toy_salt 6 8 9
           (toy_bytes [0; 0; 0; 4]) (toy_bytes [0; 0; 0; 1])
           (toy_world 23 5 6)).
  reflexivity.
Defined.

(** X5.  [verify_session] returns a value exactly when the hash helper
    returned it and the server's evidence is that very value; a failure
    of the hash helper is passed on as it is, so nothing is ever accepted
    without a successful, matching hash. *)
Theorem verify_session_accepts_iff
    {U : Utils} (A : Z) (M session_key server_H_AMK r : bytes) (w : world) :
  (fst (verify_session A M session_key server_H_AMK w) = Ok r
   <-> hash_fn [HInt A; HBytes M; HBytes session_key] = Ok r
       /\ server_H_AMK = r)
  /\ (forall e,
        hash_fn [HInt A; HBytes M; HBytes session_key] = Raise e ->
        fst (verify_session A M session_key server_H_AMK w) = Raise e).
Proof.
  unfold verify_session, _Hash, bind, call, ret, raise.
  destruct (hash_fn [HInt A; HBytes M; HBytes session_key]) as [h|e0];
    cbn [fst].
  - destruct (bytes_ne h server_H_AMK) eqn:E; cbn [fst].
    + apply bytes_ne_true in E. split; [|discriminate].
      split; [discriminate|]. intros [[= ->] ->]. contradiction.
    + apply bytes_ne_false in E. subst server_H_AMK.
      split; [|discriminate]. split.
      * intros [= ->]. split; reflexivity.
      * intros [[= ->] _]. reflexivity.
  - split.
    + split; [discriminate|]. intros [[=] _].
    + intros e [= ->]. reflexivity.
Qed.

(** ** Failures before the checks *)

(** X6.  The checks come after the helper calls: when the first hash, the
    key derivation or the second hash fails, that failure is the outcome
    of [process_challenge] whatever [B] is, even 0, and no modular
    exponentiation is performed. *)
Theorem process_challenge_helper_failure_precedes_checks
    {U : Utils} (identity password : string) (salt : bytes) (a A B : Z)
    (pg pA pB : bytes) (e : exn) (w : world) :
  pad_spec _get_srp_generator (bit_length _get_srp_prime) = Ok pg ->
  pad_spec A (bit_length _get_srp_prime) = Ok pA ->
  pad_spec B (bit_length _get_srp_prime) = Ok pB ->
  hash_fn [HBytes pA; HBytes pB] = Raise e
  \/ (exists hu,
        hash_fn [HBytes pA; HBytes pB] = Ok hu
        /\ derive_x salt identity password = Raise e)
  \/ (exists hu x,
        hash_fn [HBytes pA; HBytes pB] = Ok hu
        /\ derive_x salt identity password = Ok x
        /\ hash_fn [HInt _get_srp_prime; HBytes pg] = Raise e) ->
  fst (process_challenge identity password salt a A B w) = Raise e
  /\ existsb is_pow
       (performed (process_challenge identity password salt a A B) w)
     = false.
Proof.
  intros Hg HA HB Hfail.
  assert (Hr : exists l,
    runs (process_challenge identity password salt a A B) (Raise e) l
    /\ existsb is_pow l = false).
  { unfold process_challenge, _pad, _Hash, _calculate_x.
    destruct Hfail as [H1|[(hu & H1 & H2)|(hu & x & H1 & H2 & H3)]].
    - eexists. split;
        [do 3 (eapply runs_call_bind; [eassumption|]);
         eapply runs_call_bind_raise; eassumption
        |reflexivity].
    - eexists. split;
        [do 4 (eapply runs_call_bind; [eassumption|]);
         eapply runs_call_bind_raise; eassumption
        |reflexivity].
    - eexists. split;
        [do 5 (eapply runs_call_bind; [eassumption|]);
         eapply runs_call_bind_raise; eassumption
        |reflexivity]. }
  destruct Hr as (l & Hr & Hl).
  now rewrite (runs_fst _ _ _ w Hr), (runs_performed _ _ _ w Hr).
Qed.

(** With the key derivation out of order, [B = 0] is not reported. *)
Lemma process_challenge_helper_failure_precedes_checks_witness :
  fst (process_challenge (U := toy_utils_no_kdf 23 5) "alice" "pw" toy_salt
         6 0 0 (@World (toy_utils_no_kdf 23 5) 6 []))
  = Raise (Upstream "key derivation unavailable")
  /\ existsb is_pow
       (performed (process_challenge (U := toy_utils_no_kdf 23 5)
                     "alice" "pw" toy_salt 6 0 0)
          (@World (toy_utils_no_kdf 23 5) 6 []))
     = false.
Proof.
  apply (process_challenge_helper_failure_precedes_checks
           (U := toy_utils_no_kdf 23 5) "alice" "pw" toy_salt 6 0 0
           (toy_bytes [0; 0; 0; 0; 5]) (to_bytes_width 0 5)
           (to_bytes_width 0 5) (Upstream "key derivation unavailable")
           (@World (toy_utils_no_kdf 23 5) 6 [])).
  - reflexivity.
  - reflexivity.
  - reflexivity.
  - right. left.
    exists (toy_hash 23 [HBytes (to_bytes_width 0 5);
                         HBytes (to_bytes_width 0 5)]).
    split; reflexivity.
Defined.

(** ** The safety checks and the credentials *)

Lemma challenge_safety_outcome
    {U : Utils} (identity password : string) (salt : bytes) (a A B : Z)
    (pg pA pB hu : bytes) (x : Z) (hk : bytes) (w : world) :
  helpers_answer identity password salt A B pg pA pB hu x hk ->
  (forall args, is_safety_violation (hash_fn args) = false) ->
  (forall g N i s A' B' K,
      is_safety_violation (derive_M g N i s A' B' K) = false) ->
  is_safety_violation (fst (process_challenge identity password salt a A B w))
  = ((B =? 0) || (_to_int hu =? 0))%bool.
Proof.
  intros Hans HH HM.
  destruct (Z.eqb_spec B 0) as [HB|HB].
  - now rewrite (runs_fst _ _ _ w
                   (challenge_B_zero identity password salt a A B
                      _ _ _ _ _ _ Hans HB)).
  - destruct (Z.eqb_spec (_to_int hu) 0) as [Hu|Hu].
    + now rewrite (runs_fst _ _ _ w
                     (challenge_u_zero identity password salt a A B
                        _ _ _ _ _ _ Hans HB Hu)).
    + now apply challenge_tail_not_safety
        with (pg := pg) (pA := pA) (pB := pB) (hu := hu) (x := x) (hk := hk).
Qed.

(** X8.  Whether a safety violation is raised depends on the public
    values [A] and [B] only: two calls with the same [A] and [B] but
    different identity, password, salt and private [a] either both raise
    one or both raise none (the helpers answering in both and raising no
    safety violation of their own). *)
Theorem process_challenge_safety_ignores_credentials
    {U : Utils} (id1 pw1 id2 pw2 : string) (salt1 salt2 : bytes)
    (a1 a2 A B : Z)
    (pg1 pA1 pB1 hu1 hk1 pg2 pA2 pB2 hu2 hk2 : bytes) (x1 x2 : Z)
    (w1 w2 : world) :
  helpers_answer id1 pw1 salt1 A B pg1 pA1 pB1 hu1 x1 hk1 ->
  helpers_answer id2 pw2 salt2 A B pg2 pA2 pB2 hu2 x2 hk2 ->
  (forall args, is_safety_violation (hash_fn args) = false) ->
  (forall g N i s A' B' K,
      is_safety_violation (derive_M g N i s A' B' K) = false) ->
  is_safety_violation (fst (process_challenge id1 pw1 salt1 a1 A B w1))
  = is_safety_violation (fst (process_challenge id2 pw2 salt2 a2 A B w2)).
Proof.
  intros H1 H2 HH HM.
  rewrite (challenge_safety_outcome id1 pw1 salt1 a1 A B
             _ _ _ _ _ _ w1 H1 HH HM).
  rewrite (challenge_safety_outcome id2 pw2 salt2 a2 A B
             _ _ _ _ _ _ w2 H2 HH HM).
  destruct H1 as [_ HA1 HB1 Hu1 _ _], H2 as [_ HA2 HB2 Hu2 _ _].
  assert (pA1 = pA2) by congruence.
  assert (pB1 = pB2) by congruence.
  subst. assert (hu1 = hu2) by congruence. subst. reflexivity.
Qed.

(** With [A = 8] and [B = 15] the violation is raised for "alice" and for
    "bob" alike. *)
Lemma process_challenge_safety_ignores_credentials_witness :
  is_safety_violation
    (fst (process_challenge (U := toy_utils 23 5) "alice" "pw" toy_salt
            6 8 15 (toy_world 23 5 6)))
  = is_safety_violation
      (fst (process_challenge (U := toy_utils 23 5) "bob" "hunter2" []
              11 8 15 (toy_world 23 5 0))).
Proof.
  apply (process_challenge_safety_ignores_credentials
           (U := toy_utils 23 5) "alice" "pw" "bob" "hunter2" toy_salt []
           6 11 8 15
           (toy_bytes [0; 0; 0; 0; 5]) (to_bytes_width 8 5)
           (to_bytes_width 15 5)
           (toy_hash 23 [HBytes (to_bytes_width 8 5);
                         HBytes (to_bytes_width 15 5)])
           (toy_bytes [0; 0; 0; 5])
           (toy_bytes [0; 0; 0; 0; 5]) (to_bytes_width 8 5)
           (to_bytes_width 15 5)
           (toy_hash 23 [HBytes (to_bytes_width 8 5);
                         HBytes (to_bytes_width 15 5)])
           (toy_bytes [0; 0; 0; 5])
           5
           (_to_int (toy_hash 23 [HBytes [];
                                  HBytes (list_byte_of_string "bob");
                                  HBytes (list_byte_of_string "hunter2")]))
           (toy_world 23 5 6) (toy_world 23 5 0)).
  - exact (toy_answers 8 15 ltac:(lia) ltac:(lia)).
  - constructor; reflexivity.
  - intros args. reflexivity.
  - intros g N i s A' B' K. reflexivity.
Defined.

(** ** A degenerate key pair *)

Lemma to_int_zero_bytes (b : bytes) :
  Forall (fun c => c = Byte.x00) b -> _to_int b = 0.
Proof.
  unfold _to_int. induction 1 as [|c b Hc _ IH]; [reflexivity|].
  subst c. simpl. exact IH.
Qed.

(** X9.  No range check on the private value: when the Random Source
    hands out zero bytes only, [generate_a_pair] returns the pair
    [(0, 1 mod N)] like any other. *)
Theorem generate_a_pair_zero_bytes
    {U : Utils} (w : world) (rnd : bytes) (r' : rng) :
  _get_srp_prime <> 0 ->
  random_source 32 (entropy w) = (Ok rnd, r') ->
  Forall (fun c => c = Byte.x00) rnd ->
  fst (generate_a_pair w) = Ok (0, 1 mod _get_srp_prime).
Proof.
  intros HN Hrnd Hz.
  rewrite (generate_a_pair_ok w rnd r' HN Hrnd).
  now rewrite (to_int_zero_bytes rnd Hz).
Qed.

Lemma generate_a_pair_zero_bytes_witness :
  fst (generate_a_pair (toy_world 23 5 0)) = Ok (0, 1 mod 23).
Proof.
  apply (generate_a_pair_zero_bytes (U := toy_utils 23 5)
           (toy_world 23 5 0) (to_bytes_width 0 32) 1).
  - simpl. lia.
  - reflexivity.
  - vm_compute. repeat constructor.
Defined.
